(** * Engine sessions and post-game analysis of the chess server

    A shallow embedding of the three service files of the server:

    - [stockfishConfig]  : the difficulty table and the UCI option lookup
                           (src/config/stockfishConfig.js);
    - [stockfishService] : the registry of engine processes, the handshake
                           and its teardown (src/services/stockfishService.js);
    - [gameService]      : [makeMove] and [analyzeGame]
                           (src/services/gameService.js);
    - [searchOutput]     : the listeners of [getBestMove] and
                           [analyzePosition] and the patterns they read the
                           engine output with (src/services/stockfishService.js);
    - [gameLifecycle]    : [createGame], [getGameById] and [terminateGame]
                           (src/services/gameService.js).

    Conventions.  JavaScript numbers that the code only ever treats as
    integers are [Z].  A function that may [throw] returns a [Result]; a
    function that reads or writes module-level state ([stockfishProcesses],
    [activeGames], the Mongo collection) is a state transformer in the monad
    [M].  Every [await] runs to completion before the next statement: the
    model is one request at a time.  Calls to [logger] are left out; they
    neither change state nor steer control flow.  The chess rules library and
    the engine binary are outside the repository: the former is the class
    [RulesEngine], the latter the record [EngineBehaviour]. *)

From stdpp Require Import gmap strings pretty list.
From Stdlib Require Import ZArith Lia.

(** ** Exceptions and module state *)

Inductive Result (A : Type) : Type :=
| Ok (a : A)
| Throw (message : string).
Arguments Ok {A} a.
Arguments Throw {A} message.

Definition isThrow {A} (r : Result A) : bool :=
  match r with Ok _ => false | Throw _ => true end.

(** A computation over module state [S] that returns an [A] or throws.
    State changes made before a [throw] stay, as in JavaScript. *)
Definition M (S A : Type) : Type := S -> S * Result A.

Definition ret {S A} (a : A) : M S A := fun s => (s, Ok a).
Definition throw {S A} (message : string) : M S A := fun s => (s, Throw message).
Definition bind {S A B} (m : M S A) (k : A -> M S B) : M S B :=
  fun s => match m s with
           | (s', Ok a) => k a s'
           | (s', Throw e) => (s', Throw e)
           end.
(** [try { body } catch (error) { handler }] *)
Definition tryCatch {S A} (body : M S A) (handler : string -> M S A) : M S A :=
  fun s => match body s with
           | (s', Ok a) => (s', Ok a)
           | (s', Throw e) => handler e s'
           end.
Definition get {S} : M S S := fun s => (s, Ok s).
Definition modify {S} (f : S -> S) : M S unit := fun s => (f s, Ok tt).
Definition liftResult {S A} (r : Result A) : M S A := fun s => (s, r).
Definition when {S} (b : bool) (m : M S unit) : M S unit := if b then m else ret tt.

Declare Scope js_scope.
Delimit Scope js_scope with js.
Notation "'let*' x ':=' m 'in' k" := (bind m (fun x => k))
  (at level 10, x name, m at level 100, k at level 200) : js_scope.
Notation "m ';;' k" := (bind m (fun _ => k))
  (at level 100, k at level 200, right associativity) : js_scope.

(** The line break that ends every command sent to a child process. *)
Definition newline : string := String (Ascii.ascii_of_nat 10) EmptyString.

(** [for (const x of xs) body(x)] *)
Fixpoint forOf {S A} (xs : list A) (body : A -> M S unit) : M S unit :=
  match xs with
  | [] => ret tt
  | x :: rest => bind (body x) (fun _ => forOf rest body)
  end.

(** ** src/config/stockfishConfig.js *)
Module stockfishConfig.

Record Level := {
  skillLevel : Z;
  depth : Z;
  movetime : Z;
  elo : Z;
  contempt : Z
}.

(** The object literal [stockfishDifficultyLevels]; a key that is absent
    reads as [undefined], here [None]. *)
Definition stockfishDifficultyLevels (level : Z) : option Level :=
  match level with
  | 1 => Some {| skillLevel := 0; depth := 1; movetime := 1000; elo := 800; contempt := -100 |}
  | 2 => Some {| skillLevel := 2; depth := 2; movetime := 100; elo := 1000; contempt := -75 |}
  | 3 => Some {| skillLevel := 4; depth := 3; movetime := 150; elo := 1200; contempt := -50 |}
  | 4 => Some {| skillLevel := 6; depth := 4; movetime := 200; elo := 1400; contempt := -25 |}
  | 5 => Some {| skillLevel := 8; depth := 5; movetime := 250; elo := 1600; contempt := 0 |}
  | 6 => Some {| skillLevel := 10; depth := 6; movetime := 300; elo := 1800; contempt := 25 |}
  | 7 => Some {| skillLevel := 12; depth := 8; movetime := 400; elo := 2000; contempt := 50 |}
  | 8 => Some {| skillLevel := 14; depth := 10; movetime := 500; elo := 2200; contempt := 75 |}
  | 9 => Some {| skillLevel := 16; depth := 12; movetime := 750; elo := 2400; contempt := 100 |}
  | 10 => Some {| skillLevel := 20; depth := 15; movetime := 1000; elo := 3000; contempt := 100 |}
  | _ => None
  end%Z.

Record UciConfig := {
  options : list string;
  searchParams : string
}.

Definition getStockfishOptionsForDifficulty (level : Z) : Result UciConfig :=
  match stockfishDifficultyLevels level with
  | None =>
      Throw ("Invalid difficulty level: " +:+ pretty level +:+ ". Must be between 1 and 10.")
  | Some config =>
      Ok {| options :=
              [ "setoption name Skill Level value " +:+ pretty (skillLevel config);
                "setoption name UCI_LimitStrength value true";
                "setoption name UCI_Elo value " +:+ pretty (elo config);
                "setoption name Contempt value " +:+ pretty (contempt config) ];
            searchParams :=
              "go depth " +:+ pretty (depth config) +:+ " movetime " +:+ pretty (movetime config) |}
  end.

End stockfishConfig.

(** ** src/services/stockfishService.js *)
Module stockfishService.
Import stockfishConfig.
Local Open Scope js_scope.

(** A registry entry [{ process, responseBuffer }]; a child process is named
    by the order in which it was spawned. *)
Record Session := {
  process : nat;
  responseBuffer : string
}.

(** What the module owns: the [stockfishProcesses] map, and the operating
    system's side of it.  [running] holds the child processes that were
    spawned and not yet killed, each with the gameId it was spawned for (the
    code never reads that tag; it is there to say whose process it is).
    [stdin] is every line written to a child, oldest first. *)
Record Engines := {
  stockfishProcesses : gmap string Session;
  running : gmap nat string;
  spawned : nat;
  stdin : list (nat * string)
}.

Definition noEngines : Engines :=
  {| stockfishProcesses := ∅; running := ∅; spawned := 0; stdin := [] |}.


(** The parsed outcome of a search, as [getBestMove] resolves it. *)
Record Evaluation := {
  type : string;
  value : Z
}.
Record SearchResult := {
  bestMove : string;
  ponder : option string;
  evaluation : Evaluation;
  principalVariation : string
}.

(** The engine binary.  [stdout pid written] is the sequence of chunks the
    process [pid] emits on its output, within the ten seconds that follow the
    last line of [written] (all lines it has been sent so far).
    [searchReply pid fen searchParams] is the parsed [bestmove] answer to a
    search, or [None] when none arrives before the deadline nor in the grace
    period that follows the [stop] command.  [analysisReply fen] is what the
    throw-away process of [analyzePosition] yields for [go depth 20] on
    [fen]: the parsed result, or the error of a failed handshake or of the
    thirty-second timeout. *)
Record EngineBehaviour := {
  stdout : nat -> list string -> list string;
  searchReply : nat -> string -> string -> option SearchResult;
  analysisReply : string -> Result SearchResult
}.

(** [haystack.includes(needle)] *)
Definition includes (haystack needle : string) : bool :=
  match String.index 0 needle haystack with Some _ => true | None => false end.

Definition spawn (gameId : string) : M Engines nat := fun st =>
  let pid := spawned st in
  ({| stockfishProcesses := stockfishProcesses st;
      running := <[pid := gameId]> (running st);
      spawned := S pid;
      stdin := stdin st |}, Ok pid).

Definition kill (pid : nat) : M Engines unit :=
  modify (fun st =>
    {| stockfishProcesses := stockfishProcesses st;
       running := delete pid (running st);
       spawned := spawned st;
       stdin := stdin st |}).

Definition write (pid : nat) (line : string) : M Engines unit :=
  modify (fun st =>
    {| stockfishProcesses := stockfishProcesses st;
       running := running st;
       spawned := spawned st;
       stdin := stdin st ++ [(pid, line)] |}).

Definition registrySet (gameId : string) (entry : Session) : M Engines unit :=
  modify (fun st =>
    {| stockfishProcesses := <[gameId := entry]> (stockfishProcesses st);
       running := running st;
       spawned := spawned st;
       stdin := stdin st |}).

Definition registryDelete (gameId : string) : M Engines unit :=
  modify (fun st =>
    {| stockfishProcesses := delete gameId (stockfishProcesses st);
       running := running st;
       spawned := spawned st;
       stdin := stdin st |}).

Definition registryGet (gameId : string) : M Engines (option Session) :=
  fun st => (st, Ok (stockfishProcesses st !! gameId)).

(** The lines of a [stdin] log that went to process [pid]. *)
Definition linesTo (pid : nat) (log : list (nat * string)) : list string :=
  (filter (fun w => w.1 = pid) log).*2.

(** The data listener of [sendCommandAndAwaitResponse]: every chunk is
    appended to the buffer; the first chunk that contains the terminator
    resolves with the buffer.  Running out of chunks is the timeout.  Chunks
    are taken as already trimmed; the buffer is all that trimming changes,
    and no caller reads it. *)
Fixpoint awaitTerminator (chunks : list string) (expectedResponseEnd : string)
    (responseBuffer : string) : option string :=
  match chunks with
  | [] => None
  | dataString :: later =>
      let responseBuffer := responseBuffer +:+ dataString +:+ newline in
      if includes dataString expectedResponseEnd then Some responseBuffer
      else awaitTerminator later expectedResponseEnd responseBuffer
  end.

Section Service.
Context (engine : EngineBehaviour).

(** The listener on the error stream only logs.  The two [removeListener]
    calls name the process where the listener sits on its [stdout]; an old
    listener that stays can only resolve or reject a promise that is already
    settled, so the outcome of a call is the one given here. *)
Definition sendCommandAndAwaitResponse (engineProcess : nat)
    (command expectedResponseEnd : string) : M Engines string :=
  write engineProcess (command +:+ newline);;
  let* st := get in
  match awaitTerminator (stdout engine engineProcess (linesTo engineProcess (stdin st)))
          expectedResponseEnd "" with
  | Some responseBuffer => ret responseBuffer
  | None => throw ("Stockfish command timed out: " +:+ command)
  end.

Definition terminateEngine (gameId : string) : M Engines unit :=
  let* engineEntry := registryGet gameId in
  match engineEntry with
  | Some engineEntry =>
      kill (process engineEntry);;
      registryDelete gameId
  | None => ret tt
  end.

(** The [try] block of [initializeEngine].  [spawn] of a path given as a
    string returns a process object in every case. *)
Definition handshake (gameId : string) (difficulty : Z) : M Engines unit :=
  let* engineProcess := spawn gameId in
  registrySet gameId {| process := engineProcess; responseBuffer := "" |};;
  sendCommandAndAwaitResponse engineProcess "uci" "uciok";;
  let* config := liftResult (getStockfishOptionsForDifficulty difficulty) in
  forOf (options config) (fun option => write engineProcess (option +:+ newline));;
  sendCommandAndAwaitResponse engineProcess "isready" "readyok";;
  write engineProcess ("ucinewgame" +:+ newline);;
  sendCommandAndAwaitResponse engineProcess "isready" "readyok";;
  ret tt.

(** Its [catch] block. *)
Definition abandon (gameId : string) (error : string) : M Engines unit :=
  let* entry := registryGet gameId in
  match entry with
  | Some entry => kill (process entry);; registryDelete gameId
  | None => ret tt
  end;;
  throw "Failed to initialize Stockfish engine.".

(** Every caller in the repository passes [difficulty]; the default of the
    parameter is not used. *)
Definition initializeEngine (gameId : string) (difficulty : Z) : M Engines unit :=
  let* old := registryGet gameId in
  when (bool_decide (is_Some old)) (terminateEngine gameId);;
  tryCatch (handshake gameId difficulty) (abandon gameId).

(** Whether the process [pid], having been sent [written], emits a chunk
    with [terminator] in time. *)
Definition answers (pid : nat) (written : list string) (terminator : string) : bool :=
  bool_decide (is_Some (awaitTerminator (stdout engine pid written) terminator "")).

(** Whether every step of the handshake goes through for a process [pid]
    that has been sent [written] before: [uciok] arrives, the difficulty has
    a configuration, and both [isready] are answered. *)
Definition handshakeCompletes (pid : nat) (written : list string) (difficulty : Z) : bool :=
  let afterUci := written ++ ["uci" +:+ newline] in
  answers pid afterUci "uciok" &&
  match getStockfishOptionsForDifficulty difficulty with
  | Throw _ => false
  | Ok config =>
      let afterOptions :=
        afterUci ++ ((fun option => option +:+ newline) <$> options config)
                 ++ ["isready" +:+ newline] in
      let afterNewGame :=
        afterOptions ++ ["ucinewgame" +:+ newline; "isready" +:+ newline] in
      answers pid afterOptions "readyok" && answers pid afterNewGame "readyok"
  end.

Definition getBestMove (gameId fen : string) (difficulty : Z) : M Engines SearchResult :=
  let* engineEntry := registryGet gameId in
  match engineEntry with
  | None => throw ("Stockfish engine not found for game " +:+ gameId +:+ ".")
  | Some engineEntry =>
      let engineProcess := process engineEntry in
      let* config := liftResult (getStockfishOptionsForDifficulty difficulty) in
      write engineProcess ("position fen " +:+ fen +:+ newline);;
      write engineProcess (searchParams config +:+ newline);;
      match searchReply engine engineProcess fen (searchParams config) with
      | Some result => ret result
      | None =>
          write engineProcess ("stop" +:+ newline);;
          throw "Stockfish move calculation timed out."
      end
  end.

(** [analyzePosition] spawns a process of its own, never registers it and
    kills it on every path, so nothing of [Engines] changes; its [ponder]
    field is not part of what it resolves and stays [None]. *)
Definition analyzePosition (fen : string) : Result SearchResult :=
  analysisReply engine fen.

End Service.

(** The states of the service that its exported operations can produce,
    whatever the engine processes answer. *)
Inductive reachable : Engines -> Prop :=
| reachable_start : reachable noEngines
| reachable_initializeEngine engine gameId difficulty st :
    reachable st -> reachable (initializeEngine engine gameId difficulty st).1
| reachable_terminateEngine gameId st :
    reachable st -> reachable (terminateEngine gameId st).1
| reachable_getBestMove engine gameId fen difficulty st :
    reachable st -> reachable (getBestMove engine gameId fen difficulty st).1.

(** The registry and the process table agree: a process is alive for a game
    exactly when the registry entry of that game holds it, and process
    names are never reused. *)
Definition ownsItsProcesses (st : Engines) : Prop :=
  (forall pid gameId,
      running st !! pid = Some gameId <->
      exists entry, stockfishProcesses st !! gameId = Some entry /\ process entry = pid)
  /\ (forall pid gameId, running st !! pid = Some gameId -> pid < spawned st).

End stockfishService.

(** ** The chess rules library (chess.js), as the services use it *)
Module chessjs.

Inductive Color := w | b.

Global Instance Color_eq_dec : EqDecision Color.
Proof. solve_decision. Defined.

Definition showColor (c : Color) : string :=
  match c with w => "w" | b => "b" end.

(** A [Chess] object is mutable; [move] is given here as the position it
    leaves the object in, and [None] stands for both ways the library
    rejects a move (returning [null], or throwing). *)
Class RulesEngine (Chess : Type) := {
  newChess : Chess;
  move : Chess -> string -> option Chess;
  fen : Chess -> string;
  pgn : Chess -> string;
  turn : Chess -> Color;
  isGameOver : Chess -> bool;
  isCheckmate : Chess -> bool;
  isDraw : Chess -> bool
}.

End chessjs.

(** ** src/models/Game.js: the fields of a game document the services touch *)
Module Game.
Import stockfishService.

Inductive Status := waiting | playing | finished | analyzing | terminated.

Global Instance Status_eq_dec : EqDecision Status.
Proof. solve_decision. Defined.

Record Players := {
  white : string;
  black : string
}.

(** One element of [analysis], with the fields [analyzeGame] builds. *)
Module Entry.
Record AnalysisEntry := {
  moveNumber : nat;
  color : string;
  move : string;
  fen : string;
  evaluation : Evaluation;
  bestMove : option string;
  isMistake : bool;
  isBlunder : bool;
  comment : string
}.
End Entry.
Abbreviation AnalysisEntry := Entry.AnalysisEntry.

Record GameDoc := {
  gameId : string;
  players : Players;
  difficulty : Z;
  fen : string;
  pgn : string;
  moves : list string;
  status : Status;
  result : string;
  analysis : list AnalysisEntry
}.

End Game.

(** ** src/services/gameService.js *)
Module gameService.
Import stockfishService.
Local Open Scope js_scope.
Local Open Scope Z_scope.

Section Service.
Context {Chess : Type} `{!chessjs.RulesEngine Chess}.
Context (engine : EngineBehaviour).

(** An entry of [activeGames]. *)
Record GameData := {
  chessInstance : Chess;
  players : Game.Players;
  difficulty : Z
}.

(** The payload of a [gameStateUpdate] broadcast. *)
Record GameStateUpdate := {
  upFen : string;
  upPgn : string;
  upMoves : list string;
  upStatus : Game.Status;
  upAiMove : option string;
  upResult : string
}.

(** Module state of the game service together with what it reaches: the
    engine service, the [activeGames] map, the collection of game documents
    (keyed by gameId, which the schema declares unique), and the Socket.IO
    server with the events sent to each room so far. *)
Record Server := {
  engines : Engines;
  activeGames : gmap string GameData;
  games : gmap string Game.GameDoc;
  ioInstance : bool;
  emitted : list (string * GameStateUpdate)
}.

Definition liftEngines {A} (m : M Engines A) : M Server A := fun s =>
  let '(e, r) := m (engines s) in
  ({| engines := e; activeGames := activeGames s; games := games s;
      ioInstance := ioInstance s; emitted := emitted s |}, r).

Definition activeGet (gameId : string) : M Server (option GameData) :=
  fun s => (s, Ok (activeGames s !! gameId)).

Definition withActiveGames (f : gmap string GameData -> gmap string GameData)
    : M Server unit :=
  modify (fun s =>
    {| engines := engines s; activeGames := f (activeGames s); games := games s;
       ioInstance := ioInstance s; emitted := emitted s |}).

Definition activeDelete (gameId : string) : M Server unit :=
  withActiveGames (delete gameId).

(** [chessInstance.move(...)] changes the object that the [activeGames]
    entry points to: the entry sees the new position at once. *)
Definition chessMoved (gameId : string) (position : Chess) : M Server unit :=
  withActiveGames (alter (fun gameData =>
    {| chessInstance := position; players := players gameData;
       difficulty := difficulty gameData |}) gameId).

Definition findOne (gameId : string) : M Server (option Game.GameDoc) :=
  fun s => (s, Ok (games s !! gameId)).

(** [gameDoc.save()] *)
Definition save (gameDoc : Game.GameDoc) : M Server unit :=
  modify (fun s =>
    {| engines := engines s; activeGames := activeGames s;
       games := <[Game.gameId gameDoc := gameDoc]> (games s);
       ioInstance := ioInstance s; emitted := emitted s |}).

(** [{ $set: { analysis, status } }] on one document. *)
Definition setAnalysis (analysis : list Game.AnalysisEntry) (status : Game.Status)
    (gameDoc : Game.GameDoc) : Game.GameDoc :=
  {| Game.gameId := Game.gameId gameDoc;
     Game.players := Game.players gameDoc;
     Game.difficulty := Game.difficulty gameDoc;
     Game.fen := Game.fen gameDoc;
     Game.pgn := Game.pgn gameDoc;
     Game.moves := Game.moves gameDoc;
     Game.status := status;
     Game.result := Game.result gameDoc;
     Game.analysis := analysis |}.

(** [Game.findByIdAndUpdate(id, { $set: { analysis, status } })]; the
    document is found by the key it is stored under. *)
Definition findByIdAndUpdate (gameId : string)
    (analysis : list Game.AnalysisEntry) (status : Game.Status) : M Server unit :=
  modify (fun s =>
    {| engines := engines s; activeGames := activeGames s;
       games := alter (setAnalysis analysis status) gameId (games s);
       ioInstance := ioInstance s; emitted := emitted s |}).

Definition emit (room : string) (update : GameStateUpdate) : M Server unit :=
  modify (fun s =>
    {| engines := engines s; activeGames := activeGames s; games := games s;
       ioInstance := ioInstance s;
       emitted := emitted s ++ [(room, update)] |}).

Definition hasIo : M Server bool := fun s => (s, Ok (ioInstance s)).

(** *** makeMove *)

Record MoveResponse := {
  game : Game.GameDoc;
  aiMove : option string;
  moveStatus : Game.Status
}.

(** [gameDoc.moves.push(m); gameDoc.fen = chess.fen(); gameDoc.pgn = chess.pgn()] *)
Definition recordMove (gameDoc : Game.GameDoc) (m : string) (position : Chess)
    : Game.GameDoc :=
  {| Game.gameId := Game.gameId gameDoc;
     Game.players := Game.players gameDoc;
     Game.difficulty := Game.difficulty gameDoc;
     Game.fen := chessjs.fen position;
     Game.pgn := chessjs.pgn position;
     Game.moves := Game.moves gameDoc ++ [m];
     Game.status := Game.status gameDoc;
     Game.result := Game.result gameDoc;
     Game.analysis := Game.analysis gameDoc |}.

(** [gameDoc.status = gameStatus; gameDoc.result = gameResult] *)
Definition recordOutcome (gameDoc : Game.GameDoc) (gameStatus : Game.Status)
    (gameResult : string) : Game.GameDoc :=
  {| Game.gameId := Game.gameId gameDoc;
     Game.players := Game.players gameDoc;
     Game.difficulty := Game.difficulty gameDoc;
     Game.fen := Game.fen gameDoc;
     Game.pgn := Game.pgn gameDoc;
     Game.moves := Game.moves gameDoc;
     Game.status := gameStatus;
     Game.result := gameResult;
     Game.analysis := Game.analysis gameDoc |}.

(** The result string chosen in the two [isGameOver()] branches. *)
Definition resultOf (position : Chess) : string :=
  if chessjs.isCheckmate position then
    (if decide (chessjs.turn position = chessjs.w) then "0-1" else "1-0")
  else if chessjs.isDraw position then "1/2-1/2"
  else "*".

(** The common tail of [makeMove]: save, broadcast, return. *)
Definition saveAndBroadcast (gameId : string) (gameDoc : Game.GameDoc)
    (aiMove : option string) (gameStatus : Game.Status) (gameResult : string)
    : M Server MoveResponse :=
  save gameDoc;;
  let* io := hasIo in
  when io (emit gameId
    {| upFen := Game.fen gameDoc; upPgn := Game.pgn gameDoc;
       upMoves := Game.moves gameDoc; upStatus := gameStatus;
       upAiMove := aiMove; upResult := gameResult |});;
  ret {| game := gameDoc; aiMove := aiMove; moveStatus := gameStatus |}.

(** The [isGameOver()] branch: the game document is closed, the engine
    terminated and the game dropped from [activeGames]. *)
Definition gameOver (gameId : string) (gameDoc : Game.GameDoc) (position : Chess)
    (aiMove : option string) : M Server MoveResponse :=
  let gameResult := resultOf position in
  let gameDoc := recordOutcome gameDoc Game.finished gameResult in
  liftEngines (terminateEngine gameId);;
  activeDelete gameId;;
  saveAndBroadcast gameId gameDoc aiMove Game.finished gameResult.

(** [players.white === 'Human' ? 'w' : 'b'] *)
Definition humanPlayerColor (players : Game.Players) : chessjs.Color :=
  if bool_decide (Game.white players = "Human") then chessjs.w else chessjs.b.

Definition makeMove (gameId move : string) : M Server MoveResponse :=
  let* gameData := activeGet gameId in
  match gameData with
  | None => throw "Game not found or has ended."
  | Some gameData =>
  let* gameDoc := findOne gameId in
  match gameDoc with
  | None => throw "Game is not active or has ended."
  | Some gameDoc =>
  if negb (bool_decide (Game.status gameDoc = Game.playing))
  then throw "Game is not active or has ended."
  else
  if negb (bool_decide (humanPlayerColor (players gameData)
                        = chessjs.turn (chessInstance gameData)))
  then throw ("It's not the human's turn. Current turn: "
              +:+ chessjs.showColor (chessjs.turn (chessInstance gameData)))
  else
  (* the try block; its catch logs and rethrows the same error *)
  match chessjs.move (chessInstance gameData) move with
  | None => throw "Invalid move."
  | Some position =>
  chessMoved gameId position;;
  let gameDoc := recordMove gameDoc move position in
  if chessjs.isGameOver position then gameOver gameId gameDoc position None
  else if bool_decide (Game.white (players gameData) = "Computer")
            && bool_decide (chessjs.turn position = chessjs.w)
          || bool_decide (Game.black (players gameData) = "Computer")
            && bool_decide (chessjs.turn position = chessjs.b)
  then
    let* found := liftEngines
      (getBestMove engine gameId (chessjs.fen position) (difficulty gameData)) in
    let computerMove := bestMove found in
    if bool_decide (computerMove = "") then throw "AI failed to make a move."
    else
    match chessjs.move position computerMove with
    | None => throw "AI generated an invalid move."
    | Some position =>
        chessMoved gameId position;;
        let gameDoc := recordMove gameDoc computerMove position in
        if chessjs.isGameOver position
        then gameOver gameId gameDoc position (Some computerMove)
        else saveAndBroadcast gameId gameDoc (Some computerMove) Game.playing "*"
    end
  else saveAndBroadcast gameId gameDoc None Game.playing "*"
  end
  end
  end.

(** *** analyzeGame *)

Definition MATE_VALUE : Z := 10000.
Definition MISTAKE_THRESHOLD : Z := 150.
Definition BLUNDER_THRESHOLD : Z := 300.

(** The helper [getCpValue]: a Stockfish evaluation as one integer,
    positive when the side to move is ahead. *)
Definition getCpValue (evaluation : Evaluation) : Z :=
  if bool_decide (type evaluation = "cp") then value evaluation
  else if bool_decide (type evaluation = "mate") then
    let sign := Z.sgn (value evaluation) in
    if bool_decide (value evaluation = 0) then 0
    else sign * (MATE_VALUE - Z.abs (value evaluation))
  else 0.

(** [cpActualResult]: the position after the move, seen by the mover. *)
Definition cpActualResult (evalAfter : Evaluation) : Z :=
  let cpAfterRaw := getCpValue evalAfter in
  if bool_decide (type evalAfter = "mate") && bool_decide (value evalAfter = 0)
  then 10000
  else -1 * cpAfterRaw.

Definition evalDiff (evalStart evalAfter : Evaluation) : Z :=
  getCpValue evalStart - cpActualResult evalAfter.

(** [`${bestMoveStart}`]: a [null] prints as the word null. *)
Definition showMove (bestMove : option string) : string :=
  match bestMove with Some m => m | None => "null" end.

Record Quality := {
  isMistake : bool;
  isBlunder : bool;
  comment : string
}.

(** Step 5 of the loop body: the three variables it leaves behind. *)
Definition moveQuality (isHumanMove : bool) (bestMoveStart : option string)
    (evalStart evalAfter : Evaluation) : Quality :=
  if isHumanMove then
    if evalDiff evalStart evalAfter >? BLUNDER_THRESHOLD then
      {| isMistake := false; isBlunder := true;
         comment := "Blunder. You lost significant advantage. Best was "
                    +:+ showMove bestMoveStart +:+ "." |}
    else if evalDiff evalStart evalAfter >? MISTAKE_THRESHOLD then
      {| isMistake := true; isBlunder := false;
         comment := "Mistake. Best move was " +:+ showMove bestMoveStart +:+ "." |}
    else if bool_decide (type evalStart = "mate")
            && negb (bool_decide (type evalAfter = "mate")) then
      {| isMistake := true; isBlunder := false;
         comment := "Missed Mate. Best move was " +:+ showMove bestMoveStart +:+ "." |}
    else {| isMistake := false; isBlunder := false; comment := "" |}
  else {| isMistake := false; isBlunder := false; comment := "" |}.

(** [currentAnalysis]: what the loop carries from one ply to the next.  After
    a game-over position it is [{ evaluation, bestMove: null }]. *)
Record CurrentAnalysis := {
  currentEvaluation : Evaluation;
  currentBestMove : option string
}.

(** The variables that live across iterations of the replay loop. *)
Record Replay := {
  chess : Chess;
  currentAnalysis : CurrentAnalysis;
  analysisResults : list Game.AnalysisEntry
}.

Definition isHumanMove (players : Game.Players) (turnColor : chessjs.Color) : bool :=
  let isWhiteTurn := bool_decide (turnColor = chessjs.w) in
  isWhiteTurn && bool_decide (Game.white players = "Human")
  || negb isWhiteTurn && bool_decide (Game.black players = "Human").

(** Step 4 of the loop body: the evaluation of the position after the move,
    and the analysis handed to the next iteration. *)
Definition evaluateAfter (position : Chess) : Result (Evaluation * CurrentAnalysis) :=
  if chessjs.isGameOver position then
    let evalAfter :=
      if chessjs.isCheckmate position then {| type := "mate"; value := 0 |}
      else {| type := "cp"; value := 0 |} in
    Ok (evalAfter, {| currentEvaluation := evalAfter; currentBestMove := None |})
  else
    match analyzePosition engine (chessjs.fen position) with
    | Throw e => Throw e
    | Ok nextAnalysis =>
        Ok (evaluation nextAnalysis,
            {| currentEvaluation := evaluation nextAnalysis;
               currentBestMove := Some (bestMove nextAnalysis) |})
    end.

(** Step 5 and the object pushed onto [analysisResults]: the entry of the
    ply [i], from the loop variables before the move, the position after it
    and the evaluation of that position. *)
Definition entryOf (players : Game.Players) (i : nat) (moveSan : string)
    (st : Replay) (position : Chess) (evalAfter : Evaluation) : Game.AnalysisEntry :=
  let quality :=
    moveQuality (isHumanMove players (chessjs.turn (chess st)))
      (currentBestMove (currentAnalysis st))
      (currentEvaluation (currentAnalysis st)) evalAfter in
  {| Game.Entry.moveNumber := (i / 2 + 1)%nat;
     Game.Entry.color :=
       if bool_decide (chessjs.turn (chess st) = chessjs.w) then "white" else "black";
     Game.Entry.move := moveSan;
     Game.Entry.fen := chessjs.fen position;
     Game.Entry.evaluation := currentEvaluation (currentAnalysis st);
     Game.Entry.bestMove := currentBestMove (currentAnalysis st);
     Game.Entry.isMistake := isMistake quality;
     Game.Entry.isBlunder := isBlunder quality;
     Game.Entry.comment := comment quality |}.

Inductive Ply :=
| Next (st : Replay)     (* the iteration ran to its end *)
| Break                  (* the move could not be replayed: [break] *)
| Raise (message : string).  (* [analyzePosition] rejected *)

(** One iteration of [for (let i = 0; i < gameDoc.moves.length; i++)]. *)
Definition analyzePly (players : Game.Players) (i : nat) (moveSan : string)
    (st : Replay) : Ply :=
  match chessjs.move (chess st) moveSan with
  | None => Break
  | Some position =>
      match evaluateAfter position with
      | Throw e => Raise e
      | Ok (evalAfter, nextAnalysis) =>
          Next {| chess := position;
                  currentAnalysis := nextAnalysis;
                  analysisResults :=
                    analysisResults st
                    ++ [entryOf players i moveSan st position evalAfter] |}
      end
  end.

Inductive Outcome :=
| Completed (st : Replay)   (* every move was replayed *)
| Aborted (st : Replay)     (* left by [break], with what had been produced *)
| Rejected (message : string).

(** The replay loop over [gameDoc.moves], from index [i] on. *)
Fixpoint replay (players : Game.Players) (moves : list string) (i : nat)
    (st : Replay) : Outcome :=
  match moves with
  | [] => Completed st
  | moveSan :: later =>
      match analyzePly players i moveSan st with
      | Next st' => replay players later (S i) st'
      | Break => Aborted st
      | Raise e => Rejected e
      end
  end.

Definition setStatus (gameDoc : Game.GameDoc) (status : Game.Status) : Game.GameDoc :=
  recordOutcome gameDoc status (Game.result gameDoc).

(** The loop variables before the first iteration: a fresh board and the
    analysis of the starting position. *)
Definition startReplay (baseline : SearchResult) : Replay :=
  {| chess := chessjs.newChess;
     currentAnalysis := {| currentEvaluation := evaluation baseline;
                           currentBestMove := Some (bestMove baseline) |};
     analysisResults := [] |}.

(** [analyzeGame] resolves with a document, or with [null] ([None]) when
    the final [findById] finds none. *)
Definition analyzeGame (gameId : string) : M Server (option Game.GameDoc) :=
  let* gameDoc := findOne gameId in
  match gameDoc with
  | None => throw "Game not found."
  | Some gameDoc =>
  if negb (bool_decide (Game.status gameDoc = Game.finished))
  then throw "Game is not finished and cannot be analyzed."
  else if (0 <? length (Game.analysis gameDoc))%nat then ret (Some gameDoc)
  else
  let gameDoc := setStatus gameDoc Game.analyzing in
  save gameDoc;;
  let* baseline := liftResult (analyzePosition engine (chessjs.fen chessjs.newChess)) in
  match replay (Game.players gameDoc) (Game.moves gameDoc) 0 (startReplay baseline) with
  | Rejected e => throw e
  | Completed st | Aborted st =>
      findByIdAndUpdate gameId (analysisResults st) Game.finished;;
      findOne gameId
  end
  end.

End Service.
End gameService.

(** ** Concrete collaborators, for evaluating the services on examples *)

(** A rules engine that knows one game, the fool's mate
    1. f3 e5 2. g4 Qh4#.  A position is the number of plies played; the only
    move it accepts in a position is the one of that game, so whatever it
    accepts is legal chess and the final position is a checkmate of White. *)
Module FoolsMate.

Definition line : list string := ["f3"; "e5"; "g4"; "Qh4#"].

Definition fens : list string :=
  [ "rnbqkbnr/pppppppp/8/8/8/8/PPPPPPPP/RNBQKBNR w KQkq - 0 1";
    "rnbqkbnr/pppppppp/8/8/8/5P2/PPPPP1PP/RNBQKBNR b KQkq - 0 1";
    "rnbqkbnr/pppp1ppp/8/4p3/8/5P2/PPPPP1PP/RNBQKBNR w KQkq - 0 2";
    "rnbqkbnr/pppp1ppp/8/4p3/6P1/5P2/PPPPP2P/RNBQKBNR b KQkq - 0 2";
    "rnb1kbnr/pppp1ppp/8/4p3/6Pq/5P2/PPPPP2P/RNBQKBNR w KQkq - 1 3" ].

Definition pgns : list string :=
  [ ""; "1. f3"; "1. f3 e5"; "1. f3 e5 2. g4"; "1. f3 e5 2. g4 Qh4#" ].

Global Instance rules : chessjs.RulesEngine nat := {|
  chessjs.newChess := 0;
  chessjs.move := fun position m =>
    if bool_decide (line !! position = Some m) then Some (S position) else None;
  chessjs.fen := fun position => default "" (fens !! position);
  chessjs.pgn := fun position => default "" (pgns !! position);
  chessjs.turn := fun position => if Nat.even position then chessjs.w else chessjs.b;
  chessjs.isGameOver := fun position => bool_decide (position = 4);
  chessjs.isCheckmate := fun position => bool_decide (position = 4);
  chessjs.isDraw := fun _ => false
|}.

End FoolsMate.

(** Engines, players, stored games and loop states over that rules engine. *)
Module Fixtures.
Import stockfishConfig stockfishService gameService.

Definition cp (v : Z) : Evaluation := {| type := "cp"; value := v |}.
Definition mate (n : Z) : Evaluation := {| type := "mate"; value := n |}.

Definition found (m : string) (e : Evaluation) : SearchResult :=
  {| bestMove := m; ponder := None; evaluation := e; principalVariation := m |}.

(** An engine that follows the protocol: it answers [uci] with its banner
    and [uciok], [isready] with [readyok], and rates every position as
    [score] with best move [best]. *)
Definition answering (best : string) (score : string -> Evaluation) : EngineBehaviour :=
  {| stdout := fun _ written =>
       match last written with
       | Some command =>
           if bool_decide (command = "uci" +:+ newline)
           then ["id name Stockfish"; "uciok"]
           else if bool_decide (command = "isready" +:+ newline) then ["readyok"]
           else []
       | None => []
       end;
     searchReply := fun _ fen _ => Some (found best (score fen));
     analysisReply := fun fen => Ok (found best (score fen)) |}.

(** A process that prints its banner and then nothing: no [uciok] ever. *)
Definition mute : EngineBehaviour :=
  {| stdout := fun _ _ => ["Stockfish 16 by the Stockfish developers"];
     searchReply := fun _ _ _ => None;
     analysisReply := fun _ => Throw "Stockfish command timed out: uci" |}.

Definition humanWhite : Game.Players := {| Game.white := "Human"; Game.black := "Computer" |}.
Definition humanBlack : Game.Players := {| Game.white := "Computer"; Game.black := "Human" |}.

(** A stored game with the given players, moves and status, not analysed. *)
Definition stored (gameId : string) (players : Game.Players) (position : nat)
    (moves : list string) (status : Game.Status) (result : string) : Game.GameDoc :=
  {| Game.gameId := gameId; Game.players := players; Game.difficulty := 5;
     Game.fen := chessjs.fen position; Game.pgn := chessjs.pgn position;
     Game.moves := moves; Game.status := status; Game.result := result;
     Game.analysis := [] |}.

Definition serverWith (engines : Engines) (active : gmap string (GameData (Chess:=nat)))
    (docs : list Game.GameDoc) : Server :=
  {| gameService.engines := engines;
     activeGames := active;
     games := list_to_map ((fun d => (Game.gameId d, d)) <$> docs);
     ioInstance := true;
     emitted := [] |}.

(** A finished fool's mate in which Black was the human. *)
Definition foolsMateGame : Game.GameDoc :=
  stored "g1" humanBlack 4 FoolsMate.line Game.finished "0-1".

(** A finished game whose third recorded move cannot be played: after
    1. f3 e5 no white king can reach e5. *)
Definition corruptedGame : Game.GameDoc :=
  stored "g2" humanWhite 2 ["f3"; "e5"; "Ke5"; "Qh4#"] Game.finished "1/2-1/2".

(** A game in play after 1. f3, the human having White: Black, the
    computer, is to move. *)
Definition waitingForComputer : Server :=
  serverWith noEngines
    {[ "g3" := {| chessInstance := 1; players := humanWhite; difficulty := 5 |} ]}
    [ stored "g3" humanWhite 1 ["f3"] Game.playing "*" ].

(** The loop variables of a replay that stands at [position] with the
    evaluation [before] in hand and nothing recorded yet. *)
Definition standingAt (position : nat) (before : Evaluation) (best : string)
    : Replay (Chess:=nat) :=
  {| chess := position;
     currentAnalysis := {| currentEvaluation := before; currentBestMove := Some best |};
     analysisResults := [] |}.

(** The loop variables after [moves] have been replayed from the start. *)
Definition replayed (engine : EngineBehaviour) (players : Game.Players)
    (moves : list string) (baseline : SearchResult) : Replay (Chess:=nat) :=
  match replay engine players moves 0 (startReplay baseline) with
  | Completed st | Aborted st => st
  | Rejected _ => startReplay baseline
  end.

(** An engine that rates the position before the mating move of the fool's
    mate as [score] for the side to move, and every other position as +20. *)
Definition ratingBeforeMate (score : Z) : EngineBehaviour :=
  answering "d8h4" (fun fen => if bool_decide (fen = chessjs.fen 3) then cp score else cp 20).

End Fixtures.

(** ** src/services/stockfishService.js, the rest: reading the engine's
    output in [getBestMove] and [analyzePosition]

    The two regular expressions are given as the matchers they denote.
    Every quantifier in them ends the pattern or is followed by a character
    it cannot match, so a match at a position is found without
    backtracking.  Output is taken to be ASCII: of the line terminators only
    the line feed and the carriage return occur, and the white space that
    [trim] removes is the ASCII one. *)
Module searchOutput.
Import Stdlib.Strings.Ascii.
Import stockfishConfig stockfishService.
Local Open Scope js_scope.

(** [\d], [[a-h]], [[1-8]], and the characters that [.] refuses and after
    which [^] matches under the [m] flag. *)
Definition isDigit (c : ascii) : bool :=
  match Ascii.is_nat c with Some _ => true | None => false end.
Definition isFile (c : ascii) : bool :=
  let n := nat_of_ascii c in (97 <=? n)%nat && (n <=? 104)%nat.
Definition isRank (c : ascii) : bool :=
  let n := nat_of_ascii c in (49 <=? n)%nat && (n <=? 56)%nat.
Definition isLineTerminator (c : ascii) : bool :=
  let n := nat_of_ascii c in (n =? 10)%nat || (n =? 13)%nat.

(** A piece of a pattern, tried at the head of the input: what it consumed
    and what is left. *)
Fixpoint literal (expected input : string) : option string :=
  match expected, input with
  | "", _ => Some input
  | String e expected, String c input =>
      if bool_decide (e = c) then literal expected input else None
  | String _ _, "" => None
  end.

(** [\d+] *)
Fixpoint digitRun (input : string) : string * string :=
  match input with
  | String c rest =>
      if isDigit c then let '(run, more) := digitRun rest in (String c run, more)
      else ("", input)
  | "" => ("", "")
  end.
Definition digits (input : string) : option (string * string) :=
  let '(run, more) := digitRun input in
  if bool_decide (run = "") then None else Some (run, more).

(** [-?\d+] *)
Definition signedDigits (input : string) : option (string * string) :=
  match input with
  | String "-" rest =>
      match digits rest with
      | Some (run, more) => Some (String "-" run, more)
      | None => None
      end
  | _ => digits input
  end.

(** [.+] at the end of a pattern: the rest of the line, not empty. *)
Fixpoint lineRest (input : string) : string * string :=
  match input with
  | String c rest =>
      if isLineTerminator c then ("", input)
      else let '(line, more) := lineRest rest in (String c line, more)
  | "" => ("", "")
  end.
Definition restOfLine (input : string) : option (string * string) :=
  let '(line, more) := lineRest input in
  if bool_decide (line = "") then None else Some (line, more).

(** [[a-h][1-8][a-h][1-8]] *)
Definition squares (input : string) : option (string * string) :=
  match input with
  | String f1 (String r1 (String f2 (String r2 more))) =>
      if isFile f1 && isRank r1 && isFile f2 && isRank r2
      then Some (String f1 (String r1 (String f2 (String r2 ""))), more)
      else None
  | _ => None
  end.

(** A move in the coordinates the pattern accepts, and nothing else. *)
Definition coordinates (move : string) : Prop := squares move = Some (move, "").

(** [/^bestmove ([a-h][1-8][a-h][1-8])(?: ([a-h][1-8][a-h][1-8]))?/] at one
    position: the two groups. *)
Definition bestMoveAt (input : string) : option (string * option string) :=
  match literal "bestmove " input with
  | None => None
  | Some input =>
      match squares input with
      | None => None
      | Some (move, input) =>
          Some (move,
                match literal " " input with
                | Some input => fst <$> squares input
                | None => None
                end)
      end
  end.

(** The leftmost match of a pattern that starts with [^] under the [m]
    flag: at the start of the input and after every line terminator. *)
Fixpoint atLineStart {A} (pattern : string -> option A) (lineStart : bool)
    (input : string) : option A :=
  match (if lineStart then pattern input else None) with
  | Some found => Some found
  | None =>
      match input with
      | "" => None
      | String c rest => atLineStart pattern (isLineTerminator c) rest
      end
  end.

(** [dataString.match(/^bestmove .../m)] *)
Definition bestMoveMatch (dataString : string) : option (string * option string) :=
  atLineStart bestMoveAt true dataString.

(** The groups of the progress-line pattern that the code reads: the kind
    of score, its value, and the line of moves when the optional part
    matched. *)
Record InfoMatch := {
  scoreType : string;
  scoreValue : string;
  pvString : option string
}.

(** The text of a progress line, up to the score and from the node count
    on, from the pieces between the fixed words. *)
Definition scorePart (depth seldepth multipv kind score : string) : string :=
  "info depth " +:+ depth +:+ " seldepth " +:+ seldepth +:+ " multipv " +:+ multipv
  +:+ " score " +:+ kind +:+ " " +:+ score.
Definition searchPart (nodes nps hashfull tbhits time pv : string) : string :=
  " nodes " +:+ nodes +:+ " nps " +:+ nps +:+ " hashfull " +:+ hashfull
  +:+ " tbhits " +:+ tbhits +:+ " time " +:+ time +:+ " pv " +:+ pv.

(** [(?: nodes \d+ nps \d+ hashfull \d+ tbhits \d+ time \d+ pv (.+))?]:
    the text matched, the group, and what is left. *)
Definition infoTail (input : string) : option (string * string * string) :=
  match literal " nodes " input with None => None | Some input =>
  match digits input with None => None | Some (nodes, input) =>
  match literal " nps " input with None => None | Some input =>
  match digits input with None => None | Some (nps, input) =>
  match literal " hashfull " input with None => None | Some input =>
  match digits input with None => None | Some (hashfull, input) =>
  match literal " tbhits " input with None => None | Some input =>
  match digits input with None => None | Some (tbhits, input) =>
  match literal " time " input with None => None | Some input =>
  match digits input with None => None | Some (time, input) =>
  match literal " pv " input with None => None | Some input =>
  match restOfLine input with None => None | Some (pv, input) =>
    Some (searchPart nodes nps hashfull tbhits time pv, pv, input)
  end end end end end end end end end end end end.

(** [/info depth (\d+) seldepth \d+ multipv \d+ score (cp|mate) (-?\d+)(?: ...)?/]
    at one position: the text matched, the groups, and what is left. *)
Definition infoAt (input : string) : option (string * InfoMatch * string) :=
  match literal "info depth " input with None => None | Some input =>
  match digits input with None => None | Some (depth, input) =>
  match literal " seldepth " input with None => None | Some input =>
  match digits input with None => None | Some (seldepth, input) =>
  match literal " multipv " input with None => None | Some input =>
  match digits input with None => None | Some (multipv, input) =>
  match literal " score " input with None => None | Some input =>
  match
    match literal "cp" input with
    | Some input => Some ("cp", input)
    | None =>
        match literal "mate" input with
        | Some input => Some ("mate", input)
        | None => None
        end
    end
  with None => None | Some (kind, input) =>
  match literal " " input with None => None | Some input =>
  match signedDigits input with None => None | Some (value, input) =>
    let head := scorePart depth seldepth multipv kind value in
    match infoTail input with
    | Some (tail, pv, input) =>
        Some (head +:+ tail,
              {| scoreType := kind; scoreValue := value; pvString := Some pv |}, input)
    | None =>
        Some (head, {| scoreType := kind; scoreValue := value; pvString := None |}, input)
    end
  end end end end end end end end end end.

(** Texts that one piece of a pattern matches in full. *)
Definition number (text : string) : Prop := digits text = Some (text, "").
Definition signedNumber (text : string) : Prop := signedDigits text = Some (text, "").
Definition oneLine (text : string) : Prop := restOfLine text = Some (text, "").

(** [dataString.match(/info depth .../g)]: the texts of all matches, from
    left to right, each search starting where the match before it ended.
    [budget] bounds the number of steps; every step moves at least one
    character ahead, so the length of the input is enough. *)
Fixpoint infoMatchesWithin (budget : nat) (input : string) : list string :=
  match budget with
  | O => []
  | S budget =>
      match infoAt input with
      | Some (text, _, more) => text :: infoMatchesWithin budget more
      | None =>
          match input with
          | "" => []
          | String _ rest => infoMatchesWithin budget rest
          end
      end
  end.
Definition infoMatches (dataString : string) : list string :=
  infoMatchesWithin (S (String.length dataString)) dataString.

(** [text.match(/info depth .../)]: the groups of the leftmost match. *)
Fixpoint infoMatch (text : string) : option InfoMatch :=
  match infoAt text with
  | Some (_, groups, _) => Some groups
  | None =>
      match text with
      | "" => None
      | String _ rest => infoMatch rest
      end
  end.

(** [infoMatches[infoMatches.length - 1].match(...)], when there are matches. *)
Definition lastInfoMatch (dataString : string) : option InfoMatch :=
  match last (infoMatches dataString) with
  | Some text => infoMatch text
  | None => None
  end.

(** [parseInt(scoreValue, 10)] on a text that matched [-?\d+]. *)
Definition digitValue (c : ascii) : Z :=
  match Ascii.is_nat c with Some n => Z.of_nat n | None => 0 end.
Fixpoint decimal (acc : Z) (run : string) : Z :=
  match run with
  | "" => acc
  | String c rest => decimal (10 * acc + digitValue c)%Z rest
  end.
Definition parseInt (text : string) : Z :=
  match text with
  | String "-" run => (- decimal 0 run)%Z
  | _ => decimal 0 text
  end.

(** [pvString.trim()] *)
Fixpoint trimStart (text : string) : string :=
  match text with
  | String c rest => if Ascii.is_space c then trimStart rest else text
  | "" => ""
  end.
Definition trim (text : string) : string :=
  String.rev (trimStart (String.rev (trimStart text))).

(** The variables [evaluation] and [principalVariation] of a listener. *)
Record Heard := {
  heardEvaluation : Evaluation;
  heardLine : string
}.

(** [let evaluation = { type: 'cp', value: 0 }; let principalVariation = ''] *)
Definition nothingHeard : Heard :=
  {| heardEvaluation := {| type := "cp"; value := 0 |}; heardLine := "" |}.

(** The first half of both data listeners: the last progress line of the
    chunk replaces the evaluation, and the line of moves when it has one. *)
Definition hear (heard : Heard) (dataString : string) : Heard :=
  match lastInfoMatch dataString with
  | Some groups =>
      {| heardEvaluation :=
           {| type := scoreType groups; value := parseInt (scoreValue groups) |};
         heardLine :=
           match pvString groups with
           | Some pv => trim pv
           | None => heardLine heard
           end |}
  | None => heard
  end.

(** The data listener of [getBestMove] over the chunks of one wait: the
    variables at the end, and what the promise resolved with, if it did. *)
Fixpoint listen (heard : Heard) (chunks : list string) : Heard * option SearchResult :=
  match chunks with
  | [] => (heard, None)
  | dataString :: later =>
      let heard := hear heard dataString in
      match bestMoveMatch dataString with
      | Some (move, pondered) =>
          (heard, Some {| bestMove := move; ponder := pondered;
                          evaluation := heardEvaluation heard;
                          principalVariation := heardLine heard |})
      | None => listen heard later
      end
  end.

Section Service.
Context (engine : EngineBehaviour).

(** [getBestMove] with its listener: [stdout] gives the chunks of the
    fifteen seconds after the search command and, once [stop] is written,
    of the half second of grace.  The growth of [responseBuffer], which
    nothing reads, is left out; so is the listener that a call leaves
    behind when it times out, which can only settle a promise that is
    settled already. *)
Definition getBestMove (gameId fen : string) (difficulty : Z) : M Engines SearchResult :=
  let* engineEntry := registryGet gameId in
  match engineEntry with
  | None => throw ("Stockfish engine not found for game " +:+ gameId +:+ ".")
  | Some engineEntry =>
      let engineProcess := process engineEntry in
      let* config := liftResult (getStockfishOptionsForDifficulty difficulty) in
      write engineProcess ("position fen " +:+ fen +:+ newline);;
      write engineProcess (searchParams config +:+ newline);;
      let* st := get in
      match listen nothingHeard
              (stdout engine engineProcess (linesTo engineProcess (stdin st))) with
      | (_, Some result) => ret result
      | (heard, None) =>
          write engineProcess ("stop" +:+ newline);;
          let* st := get in
          match listen heard
                  (stdout engine engineProcess (linesTo engineProcess (stdin st))) with
          | (_, Some result) => ret result
          | (_, None) => throw "Stockfish move calculation timed out."
          end
      end
  end.

(** The process of [analyzePosition] belongs to no game. *)
Definition noGame : string := "".

(** [analyzePosition] with its process and its listener, which resolves
    without a [ponder] field.  [stdout] gives the chunks of the thirty
    seconds after [go depth 20].  The promise is returned from inside the
    [try] without an [await], so the [catch] sees the handshake only; the
    timeout kills the process by itself. *)
Definition analyzePosition (fen : string) : M Engines SearchResult :=
  let* analysisEngineProcess := spawn noGame in
  tryCatch
    (sendCommandAndAwaitResponse engine analysisEngineProcess "uci" "uciok";;
     sendCommandAndAwaitResponse engine analysisEngineProcess "isready" "readyok";;
     ret tt)
    (fun error => kill analysisEngineProcess;; throw error);;
  write analysisEngineProcess ("position fen " +:+ fen +:+ newline);;
  write analysisEngineProcess ("go depth 20" +:+ newline);;
  let* st := get in
  match listen nothingHeard
          (stdout engine analysisEngineProcess
             (linesTo analysisEngineProcess (stdin st))) with
  | (_, Some result) =>
      kill analysisEngineProcess;;
      ret {| bestMove := bestMove result; ponder := None;
             evaluation := evaluation result;
             principalVariation := principalVariation result |}
  | (_, None) =>
      kill analysisEngineProcess;;
      throw "Stockfish analysis timed out."
  end.

End Service.
End searchOutput.

(** ** src/services/gameService.js, the rest: createGame, getGameById, terminateGame *)
Module gameLifecycle.
Import stockfishService gameService.
Local Open Scope js_scope.
Local Open Scope Z_scope.

(** What [createGame] resolves with: [{ game, aiMove }]. *)
Module Created.
Record Created := {
  game : Game.GameDoc;
  aiMove : option string
}.
End Created.
Abbreviation Created := Created.Created.

Section Service.
Context {Chess : Type} `{!chessjs.RulesEngine Chess}.
Context (engine : EngineBehaviour).

(** What the libraries decide.  [schemaError difficulty] is the message of
    the validation error with which [save()] rejects a new document whose
    [difficulty] is outside the [min: 1, max: 10] of the schema, and
    [duplicateError gameId] that of the unique index on [gameId] when a
    document with this identifier exists.  [moveError] tells how the rules
    library refuses a move: [Some message] when [chess.move] throws an error
    with that message, [None] when it returns [null]; [makeMove] and
    [analyzeGame] treat both alike, [createGame] does not look at the
    result. *)
Context (schemaError : Z -> string).
Context (duplicateError : string -> string).
Context (moveError : string -> option string).

Local Abbreviation Server := (Server (Chess:=Chess)).

Definition activeSet (gameId : string) (gameData : GameData (Chess:=Chess))
    : M Server unit :=
  withActiveGames (insert gameId gameData).

(** [new Game(gameData)] followed by [save()]: validation comes first and
    bounds [difficulty], then the insertion meets the unique index; the
    other paths that [createGame] fills in pass their validators ([status]
    is ['playing'], [result] defaults to ['*']). *)
Definition saveNew (gameDoc : Game.GameDoc) : M Server unit :=
  if bool_decide (1 <= Game.difficulty gameDoc <= 10) then
    let* existing := findOne (Game.gameId gameDoc) in
    match existing with
    | Some _ => throw (duplicateError (Game.gameId gameDoc))
    | None => save gameDoc
    end
  else throw (schemaError (Game.difficulty gameDoc)).

(** [Game.updateOne({ gameId }, { status, result })]: no document, no change;
    an update runs no validators. *)
Definition updateOne (gameId : string) (status : Game.Status) (result : string)
    : M Server unit :=
  modify (fun s =>
    {| engines := engines s; activeGames := activeGames s;
       games := alter (fun gameDoc => recordOutcome gameDoc status result) gameId (games s);
       ioInstance := ioInstance s; emitted := emitted s |}).

Definition terminateGame (gameId : string) : M Server unit :=
  liftEngines (terminateEngine gameId);;
  activeDelete gameId;;
  updateOne gameId Game.terminated "*".

Definition getGameById (gameId : string) : M Server Game.GameDoc :=
  let* game := findOne gameId in
  match game with
  | None => throw "Game not found."
  | Some game => ret game
  end.

(** The document that [createGame] builds from its [gameData], and the
    entry it puts into [activeGames], which shares the [players] and holds
    the position. *)
Definition newGame (gameId : string) (difficulty : Z) (playerColor : string)
    : Game.GameDoc :=
  {| Game.gameId := gameId;
     Game.players :=
       {| Game.white := if bool_decide (playerColor = "white") then "Human" else "Computer";
          Game.black := if bool_decide (playerColor = "black") then "Human" else "Computer" |};
     Game.difficulty := difficulty;
     Game.fen := chessjs.fen chessjs.newChess;
     Game.pgn := chessjs.pgn chessjs.newChess;
     Game.moves := [];
     Game.status := Game.playing;
     Game.result := "*";
     Game.analysis := [] |}.

Definition seated (gameId : string) (difficulty : Z) (playerColor : string)
    (position : Chess) : GameData (Chess:=Chess) :=
  {| chessInstance := position;
     players := Game.players (newGame gameId difficulty playerColor);
     difficulty := difficulty |}.

(** [createGame(userId, difficulty, playerColor)], with the identifier that
    [uuidv4()] returns as the argument [gameId].  The [userId] is taken to
    be the identifier of a user, as the schema requires; it is stored in the
    document and read by nothing modelled here, and is left out with the
    other fields that [Game.GameDoc] does not carry. *)
Definition createGame (gameId : string) (difficulty : Z) (playerColor : string)
    : M Server Created :=
  let chess := chessjs.newChess in
  let newGame := newGame gameId difficulty playerColor in
  saveNew newGame;;
  activeSet gameId (seated gameId difficulty playerColor chess);;
  liftEngines (initializeEngine engine gameId difficulty);;
  if bool_decide (playerColor = "black") then
    let* found := liftEngines (getBestMove engine gameId (chessjs.fen chess) difficulty) in
    let computerMove := bestMove found in
    if bool_decide (computerMove = "") then
      terminateGame gameId;;
      throw "Computer failed to make a first move."
    else
      let* chess :=
        match chessjs.move chess computerMove with
        | Some position => chessMoved gameId position;; ret position
        | None =>
            match moveError computerMove with
            | Some message => throw message
            | None => ret chess
            end
        end in
      let newGame := recordMove newGame computerMove chess in
      save newGame;;
      let* io := hasIo in
      when io (emit gameId
        {| upFen := Game.fen newGame; upPgn := Game.pgn newGame;
           upMoves := Game.moves newGame; upStatus := Game.status newGame;
           upAiMove := Some computerMove; upResult := Game.result newGame |});;
      ret {| Created.game := newGame; Created.aiMove := Some computerMove |}
  else ret {| Created.game := newGame; Created.aiMove := None |}.

End Service.
End gameLifecycle.

(** ** Shapes of a stored analysis, for the facts on [analyzeGame] *)
Module analysisEntries.



(** The k-th entry is for the k-th recorded move, under its move number. *)
Definition followsMoves (recorded : list string) (entries : list Game.AnalysisEntry)
    : Prop :=
  forall k entry,
    entries !! k = Some entry ->
    recorded !! k = Some (Game.Entry.move entry)
    /\ Game.Entry.moveNumber entry = (k / 2 + 1)%nat.

End analysisEntries.

(** ** Scenarios over the fool's mate: sessions, games in play, engine output *)
Module Scenarios.
Import stockfishConfig stockfishService gameService searchOutput Fixtures.
Local Open Scope js_scope.

(** An engine that answers every search with the move [reply]. *)
Definition replying (reply : string) : EngineBehaviour :=
  answering reply (fun _ => cp 20).

(** The registry once a session for the game g1 has been started. *)
Definition started : Engines :=
  (initializeEngine (replying "e5") "g1" 5 noEngines).1.


(** The game g1 in play on [position], reached by [moves]. *)
Definition inPlay (engines : Engines) (players : Game.Players) (position : nat)
    (moves : list string) : Server :=
  serverWith engines
    {[ "g1" := {| chessInstance := position; players := players; difficulty := 5 |} ]}
    [ stored "g1" players position moves Game.playing "*" ].

(** A server without games. *)
Definition idle : Server := serverWith noEngines ∅ [].

(** What an engine prints when a search ends: a progress line and the
    best-move line, with the reply it expects after the word [ponder]. *)
Definition progressLine : string :=
  "info depth 12 seldepth 18 multipv 1 score cp -35 nodes 20534 nps 1026700 hashfull 0 tbhits 0 time 20 pv e7e5 g1f3 b8c6".
Definition bestMoveLine : string := "bestmove e7e5 ponder g1f3".
Definition lastChunk : string :=
  progressLine +:+ newline +:+ bestMoveLine +:+ newline.

(** An engine that follows the protocol and prints [output] in answer to
    every [go] command; its [searchReply] and [analysisReply] are what the
    listeners make of that output. *)
Definition searching (output : list string) : EngineBehaviour :=
  {| stdout := fun _ written =>
       match last written with
       | Some command =>
           if bool_decide (command = "uci" +:+ newline)
           then ["id name Stockfish"; "uciok"]
           else if bool_decide (command = "isready" +:+ newline) then ["readyok"]
           else if String.prefix "go " command then output
           else []
       | None => []
       end;
     searchReply := fun _ _ _ => (listen nothingHeard output).2;
     analysisReply := fun _ =>
       match (listen nothingHeard output).2 with
       | Some result => Ok result
       | None => Throw "Stockfish analysis timed out."
       end |}.

(** The messages of the libraries, in short. *)
Definition validationFailed (difficulty : Z) : string :=
  "Game validation failed: difficulty (" +:+ pretty difficulty +:+ ")".
Definition duplicateKey (gameId : string) : string :=
  "E11000 duplicate key error: gameId " +:+ gameId.
Definition invalidMove (move : string) : option string :=
  Some ("Invalid move: " +:+ move).

End Scenarios.

(** * Facts about the configuration and the engine service *)
Module stockfishFacts.
Import stockfishConfig stockfishService.

Section EngineFacts.
Context (engine : EngineBehaviour).

Lemma linesTo_app pid log more :
  linesTo pid (log ++ more) = linesTo pid log ++ linesTo pid more.
Proof. unfold linesTo. by rewrite filter_app, fmap_app. Qed.

Lemma linesTo_cons pid line log :
  linesTo pid ((pid, line) :: log) = line :: linesTo pid log.
Proof. unfold linesTo. by rewrite filter_cons_True. Qed.

Lemma linesTo_nil pid : linesTo pid [] = [].
Proof. done. Qed.

Ltac lines :=
  rewrite <- ?app_assoc; simpl;
  rewrite ?linesTo_app, ?linesTo_cons, ?linesTo_nil;
  rewrite <- ?app_assoc; simpl.

Ltac await :=
  match goal with
  | |- context [match awaitTerminator ?chunks ?terminator ?buffer with _ => _ end] =>
      destruct (awaitTerminator chunks terminator buffer) eqn:?; simpl
  end.

Lemma linesTo_snoc pid log line :
  linesTo pid (log ++ [(pid, line)]) = linesTo pid log ++ [line].
Proof. by rewrite linesTo_app, linesTo_cons. Qed.

Lemma sendCommandAndAwaitResponse_run pid command terminator st :
  sendCommandAndAwaitResponse engine pid command terminator st =
  let st' := {| stockfishProcesses := stockfishProcesses st; running := running st;
                spawned := spawned st;
                stdin := stdin st ++ [(pid, command +:+ newline)] |} in
  (st', match awaitTerminator
                (stdout engine pid (linesTo pid (stdin st) ++ [command +:+ newline]))
                terminator "" with
        | Some responseBuffer => Ok responseBuffer
        | None => Throw ("Stockfish command timed out: " +:+ command)
        end).
Proof.
  unfold sendCommandAndAwaitResponse, bind, write, modify, get; simpl.
  rewrite linesTo_snoc. by destruct (awaitTerminator _ _ _).
Qed.

Lemma handshake_run gameId difficulty st :
  let pid := spawned st in
  let '(st', r) := handshake engine gameId difficulty st in
  stockfishProcesses st' = <[gameId := {| process := pid; responseBuffer := "" |}]> (stockfishProcesses st)
  /\ running st' = <[pid := gameId]> (running st)
  /\ spawned st' = S pid
  /\ (r = Ok tt <-> handshakeCompletes engine pid (linesTo pid (stdin st)) difficulty = true).
Proof.
  unfold handshake, handshakeCompletes, answers.
  unfold bind at 1. unfold spawn at 1. unfold bind at 1. unfold registrySet, modify; simpl.
  unfold bind at 1. rewrite sendCommandAndAwaitResponse_run; simpl.
  await; [|repeat split; done].
  unfold bind at 1, liftResult. unfold getStockfishOptionsForDifficulty.
  destruct (stockfishDifficultyLevels difficulty) as [config|] eqn:EL; simpl; [|repeat split; done].
  unfold bind, write, modify; simpl.
  rewrite sendCommandAndAwaitResponse_run; simpl. lines.
  await; [|repeat split; done].
  rewrite sendCommandAndAwaitResponse_run; simpl. lines.
  await; repeat split; done.
Qed.

Lemma terminateEngine_run gameId st :
  terminateEngine gameId st =
  (match stockfishProcesses st !! gameId with
   | Some engineEntry =>
       {| stockfishProcesses := delete gameId (stockfishProcesses st);
          running := delete (process engineEntry) (running st);
          spawned := spawned st;
          stdin := stdin st |}
   | None => st
   end, Ok tt).
Proof.
  unfold terminateEngine, bind, registryGet.
  by destruct (stockfishProcesses st !! gameId).
Qed.

(** The state in which the [try] block of [initializeEngine] starts. *)
Lemma initializeEngine_run gameId difficulty st :
  initializeEngine engine gameId difficulty st =
  tryCatch (handshake engine gameId difficulty) (abandon gameId)
    (terminateEngine gameId st).1.
Proof.
  unfold initializeEngine, bind at 1. unfold registryGet at 1.
  unfold bind, when. rewrite terminateEngine_run.
  destruct (stockfishProcesses st !! gameId) as [old|] eqn:E; simpl.
  - by rewrite terminateEngine_run, E.
  - done.
Qed.

Lemma terminateEngine_spawned gameId st :
  spawned (terminateEngine gameId st).1 = spawned st.
Proof. rewrite terminateEngine_run. by destruct (stockfishProcesses st !! gameId). Qed.

Lemma terminateEngine_stdin gameId st :
  stdin (terminateEngine gameId st).1 = stdin st.
Proof. rewrite terminateEngine_run. by destruct (stockfishProcesses st !! gameId). Qed.

Lemma initializeEngine_spec gameId difficulty st :
  let base := (terminateEngine gameId st).1 in
  let pid := spawned st in
  let '(st', r) := initializeEngine engine gameId difficulty st in
  spawned st' = S pid /\
  if handshakeCompletes engine pid (linesTo pid (stdin st)) difficulty
  then r = Ok tt
       /\ stockfishProcesses st' =
            <[gameId := {| process := pid; responseBuffer := "" |}]> (stockfishProcesses base)
       /\ running st' = <[pid := gameId]> (running base)
  else r = Throw "Failed to initialize Stockfish engine."
       /\ stockfishProcesses st' = delete gameId (stockfishProcesses base)
       /\ running st' = delete pid (running base).
Proof.
  cbv zeta. rewrite initializeEngine_run. unfold tryCatch.
  pose proof (handshake_run gameId difficulty (terminateEngine gameId st).1) as H.
  cbv zeta in H. rewrite terminateEngine_spawned, terminateEngine_stdin in H.
  destruct (handshake engine gameId difficulty _) as [st1 [[]|e]];
    destruct H as (Hreg & Hrun & Hsp & Hok).
  - rewrite (proj1 Hok eq_refl). done.
  - destruct (handshakeCompletes _ _ _ _) eqn:Hc.
    { by specialize (proj2 Hok eq_refl). }
    unfold abandon, bind, registryGet, kill, registryDelete, modify, throw.
    rewrite Hreg, lookup_insert_eq. simpl.
    rewrite Hreg, Hrun, Hsp, !delete_insert_eq. done.
Qed.

Lemma terminateEngine_owns gameId st :
  ownsItsProcesses st -> ownsItsProcesses (terminateEngine gameId st).1.
Proof.
  intros [Hown Hlt]. rewrite terminateEngine_run.
  destruct (stockfishProcesses st !! gameId) as [old|] eqn:E; simpl; [|done].
  split; simpl.
  - intros pid g. rewrite lookup_delete_Some, Hown. split.
    + intros (Hne & entry & Hentry & Hp).
      exists entry. split; [|done]. rewrite lookup_delete_ne; [done|].
      intros ->. congruence.
    + intros (entry & Hentry & Hp). apply lookup_delete_Some in Hentry as [Hne Hentry].
      split; [|eauto]. intros Hsame.
      assert (running st !! pid = Some gameId) as H1 by (apply Hown; eauto).
      assert (running st !! pid = Some g) as H2 by (apply Hown; eauto).
      congruence.
  - intros pid g [_ H]%lookup_delete_Some. eauto.
Qed.

Lemma terminateEngine_removes gameId st :
  stockfishProcesses (terminateEngine gameId st).1 !! gameId = None.
Proof.
  rewrite terminateEngine_run.
  destruct (stockfishProcesses st !! gameId) eqn:E; simpl; [|done].
  apply lookup_delete_eq.
Qed.

Lemma initializeEngine_owns gameId difficulty st :
  ownsItsProcesses st -> ownsItsProcesses (initializeEngine engine gameId difficulty st).1.
Proof.
  intros Hst.
  pose proof (terminateEngine_owns gameId _ Hst) as [Hown Hlt].
  pose proof (terminateEngine_removes gameId st) as Hfree.
  pose proof (terminateEngine_spawned gameId st) as Hsp.
  pose proof (initializeEngine_spec gameId difficulty st) as H. simpl in H.
  destruct (initializeEngine engine gameId difficulty st) as [st' r]; simpl.
  destruct H as [Hsp' H].
  assert (running (terminateEngine gameId st).1 !! spawned st = None) as Hfresh.
  { destruct (running _ !! spawned st) as [g|] eqn:E; [|done].
    apply Hlt in E. lia. }
  destruct (handshakeCompletes _ _ _ _); destruct H as (_ & Hreg & Hrun).
  - split.
    + intros pid g. rewrite Hrun, Hreg, lookup_insert_Some. split.
      * intros [[<- <-]|[Hne Hp]].
        { eexists. rewrite lookup_insert_eq. done. }
        apply Hown in Hp as (entry & Hentry & Hp). exists entry. split; [|done].
        rewrite lookup_insert_ne; [done|]. intros <-. congruence.
      * intros (entry & Hentry & Hp). apply lookup_insert_Some in Hentry as [[<- <-]|[Hne Hentry]].
        { left. done. }
        right. split; [|apply Hown; eauto].
        intros <-. assert (running (terminateEngine gameId st).1 !! spawned st = Some g) by (apply Hown; eauto).
        congruence.
    + intros pid g. rewrite Hrun, Hsp'. intros [[<- <-]|[Hne Hp]]%lookup_insert_Some; [lia|].
      apply Hlt in Hp. lia.
  - rewrite delete_id in Hreg by done. rewrite delete_id in Hrun by done.
    split.
    + intros pid g. rewrite Hrun, Hreg. apply Hown.
    + intros pid g. rewrite Hrun, Hsp'. intros Hp%Hlt. lia.
Qed.

Lemma getBestMove_frame gameId fen difficulty st :
  let st' := (getBestMove engine gameId fen difficulty st).1 in
  stockfishProcesses st' = stockfishProcesses st
  /\ running st' = running st /\ spawned st' = spawned st.
Proof.
  unfold getBestMove, bind, registryGet, liftResult, write, modify, throw, ret.
  destruct (stockfishProcesses st !! gameId); simpl; [|done].
  destruct (getStockfishOptionsForDifficulty difficulty); simpl; [|done].
  by destruct (searchReply _ _ _ _).
Qed.

Lemma getBestMove_owns gameId fen difficulty st :
  ownsItsProcesses st -> ownsItsProcesses (getBestMove engine gameId fen difficulty st).1.
Proof.
  destruct (getBestMove_frame gameId fen difficulty st) as (Hreg & Hrun & Hsp).
  unfold ownsItsProcesses. by rewrite Hreg, Hrun, Hsp.
Qed.

End EngineFacts.

Lemma noEngines_owns : ownsItsProcesses noEngines.
Proof.
  split; simpl.
  - intros pid g. rewrite lookup_empty. split; [done|].
    intros (entry & H & _). by rewrite lookup_empty in H.
  - intros pid g. by rewrite lookup_empty.
Qed.

Lemma reachable_owns st : reachable st -> ownsItsProcesses st.
Proof.
  induction 1; auto using noEngines_owns, initializeEngine_owns,
    terminateEngine_owns, getBestMove_owns.
Qed.




Lemma level_in_range level :
  (1 <= level <= 10)%Z -> is_Some (stockfishDifficultyLevels level).
Proof.
  intros H.
  assert (level = 1 \/ level = 2 \/ level = 3 \/ level = 4 \/ level = 5 \/ level = 6
          \/ level = 7 \/ level = 8 \/ level = 9 \/ level = 10)%Z as Hcases by lia.
  repeat (destruct Hcases as [->|Hcases]; [by eexists|]). subst. by eexists.
Qed.

Lemma level_out_of_range level :
  ~ (1 <= level <= 10)%Z -> stockfishDifficultyLevels level = None.
Proof.
  intros H. destruct level as [|p|p]; try done.
  do 4 (destruct p as [p|p|]; try done; try lia).
Qed.

Lemma level_known level row :
  stockfishDifficultyLevels level = Some row -> (1 <= level <= 10)%Z.
Proof.
  intros H. destruct (decide (1 <= level <= 10)%Z) as [|Hout]; [done|].
  apply level_out_of_range in Hout. congruence.
Qed.

Lemma invalid_level_never_completes engine pid written level :
  ~ (1 <= level <= 10)%Z -> handshakeCompletes engine pid written level = false.
Proof.
  intros H. unfold handshakeCompletes, getStockfishOptionsForDifficulty.
  rewrite level_out_of_range by done. apply andb_false_r.
Qed.

Lemma failed_handshake engine gameId difficulty st :
  handshakeCompletes engine (spawned st) (linesTo (spawned st) (stdin st)) difficulty = false ->
  exists st',
    initializeEngine engine gameId difficulty st
      = (st', Throw "Failed to initialize Stockfish engine.")
    /\ spawned st' = S (spawned st)
    /\ running st' !! spawned st = None
    /\ stockfishProcesses st' !! gameId = None.
Proof.
  intros Hfail.
  pose proof (initializeEngine_spec engine gameId difficulty st) as H. cbv zeta in H.
  destruct (initializeEngine engine gameId difficulty st) as [st' r].
  rewrite Hfail in H. destruct H as (Hsp & -> & Hreg & Hrun).
  exists st'. rewrite Hreg, Hrun, !lookup_delete_eq. done.
Qed.

(** C6 (as amended).  Every level from 1 to 10 has a configuration, fixed by
    the level alone, with four option lines and a search command; any other
    level is refused with a validation error.  [initializeEngine] consults the
    lookup only after it has spawned the process, so with such a level it does
    spawn one: it then kills it, drops the registry entry and throws the
    generic error. *)
Theorem configurationFor_and_startup engine gameId st level :
  ((1 <= level <= 10)%Z ->
     exists config,
       getStockfishOptionsForDifficulty level = Ok config
       /\ length (options config) = 4
       /\ 0 < String.length (searchParams config))
  /\ (~ (1 <= level <= 10)%Z ->
      getStockfishOptionsForDifficulty level
        = Throw ("Invalid difficulty level: " +:+ pretty level
                 +:+ ". Must be between 1 and 10.")
      /\ exists st',
          initializeEngine engine gameId level st
            = (st', Throw "Failed to initialize Stockfish engine.")
          /\ spawned st' = S (spawned st)
          /\ running st' !! spawned st = None
          /\ stockfishProcesses st' !! gameId = None).
Proof.
  split.
  - intros H.
    assert (level = 1 \/ level = 2 \/ level = 3 \/ level = 4 \/ level = 5 \/ level = 6
            \/ level = 7 \/ level = 8 \/ level = 9 \/ level = 10)%Z as Hcases by lia.
    repeat (destruct Hcases as [->|Hcases];
            [eexists; split; [reflexivity|split; [reflexivity|vm_compute; lia]]|]).
    subst. eexists; split; [reflexivity|split; [reflexivity|vm_compute; lia]].
  - intros H. split.
    + unfold getStockfishOptionsForDifficulty. by rewrite level_out_of_range.
    + apply failed_handshake. by apply invalid_level_never_completes.
Qed.

(** Level 7 has a configuration; level 11 has none and the start-up, on an
    engine that answers, ends as the theorem says. *)
Lemma configurationFor_and_startup_witness :
  (exists config,
     getStockfishOptionsForDifficulty 7 = Ok config
     /\ length (options config) = 4
     /\ 0 < String.length (searchParams config))
  /\ exists st',
       initializeEngine (Fixtures.answering "e2e4" (fun _ => Fixtures.cp 20)) "g1" 11 noEngines
         = (st', Throw "Failed to initialize Stockfish engine.")
       /\ spawned st' = 1
       /\ running st' !! 0 = None
       /\ stockfishProcesses st' !! "g1" = None.
Proof.
  split.
  - apply (proj1 (configurationFor_and_startup Fixtures.mute "g1" noEngines 7)). lia.
  - apply (proj2 (configurationFor_and_startup
                    (Fixtures.answering "e2e4" (fun _ => Fixtures.cp 20)) "g1" noEngines 11)).
    lia.
Defined.

(** C6, as the specification words it, fails: started with level 0 on an
    engine that answers [uci], [initializeEngine] has spawned a process
    (the count goes from 0 to 1) and written to it before it fails. *)
Lemma invalid_level_spawns_a_process :
  let '(st', r) :=
    initializeEngine (Fixtures.answering "e2e4" (fun _ => Fixtures.cp 20)) "g1" 0 noEngines in
  isThrow r = true
  /\ spawned noEngines = 0 /\ spawned st' = 1
  /\ stdin st' = [(0, "uci" +:+ newline)].
Proof. vm_compute. done. Qed.

(** C7 (as amended).  Going up the levels, the skill parameter, the target
    rating, the draw-avoidance bias and the depth never decrease, and from
    level 2 on neither does the move time. *)
Theorem difficulty_table_monotone lower higher easier harder :
  stockfishDifficultyLevels lower = Some easier ->
  stockfishDifficultyLevels higher = Some harder ->
  (lower <= higher)%Z ->
  (skillLevel easier <= skillLevel harder)%Z
  /\ (elo easier <= elo harder)%Z
  /\ (contempt easier <= contempt harder)%Z
  /\ (depth easier <= depth harder)%Z
  /\ ((2 <= lower)%Z -> (movetime easier <= movetime harder)%Z).
Proof.
  intros Hlow Hhigh Hle.
  pose proof (level_known _ _ Hlow) as Hl. pose proof (level_known _ _ Hhigh) as Hh.
  assert (lower = 1 \/ lower = 2 \/ lower = 3 \/ lower = 4 \/ lower = 5 \/ lower = 6
          \/ lower = 7 \/ lower = 8 \/ lower = 9 \/ lower = 10)%Z as Hcl by lia.
  assert (higher = 1 \/ higher = 2 \/ higher = 3 \/ higher = 4 \/ higher = 5 \/ higher = 6
          \/ higher = 7 \/ higher = 8 \/ higher = 9 \/ higher = 10)%Z as Hch by lia.
  clear Hl Hh.
  destruct Hcl as [->|[->|[->|[->|[->|[->|[->|[->|[->| ->]]]]]]]]];
    destruct Hch as [->|[->|[->|[->|[->|[->|[->|[->|[->| ->]]]]]]]]];
    try lia; cbn in Hlow, Hhigh; simplify_eq; cbn; repeat split; intros; lia.
Qed.

(** Levels 7 and 10. *)
Lemma difficulty_table_monotone_witness :
  (12 <= 20)%Z /\ (2000 <= 3000)%Z /\ (50 <= 100)%Z /\ (8 <= 15)%Z
  /\ ((2 <= 7)%Z -> (400 <= 1000)%Z).
Proof.
  apply (difficulty_table_monotone 7 10
           {| skillLevel := 12; depth := 8; movetime := 400; elo := 2000; contempt := 50 |}
           {| skillLevel := 20; depth := 15; movetime := 1000; elo := 3000; contempt := 100 |});
    [reflexivity | reflexivity | lia].
Defined.

(** C7, as the specification words it, fails for the move time: level 1
    thinks for 1000 ms, level 2 for 100 ms. *)
Lemma movetime_drops_after_level_1 :
  exists easier harder,
    stockfishDifficultyLevels 1 = Some easier
    /\ stockfishDifficultyLevels 2 = Some harder
    /\ (movetime harder < movetime easier)%Z.
Proof. do 2 eexists. split; [reflexivity|]. split; [reflexivity|]. simpl. lia. Qed.

(** C8.  When a step of the handshake fails (no [uciok] in time, no
    configuration for the level, or an [isready] left unanswered), the
    process spawned for the call is killed, the registry has no entry for
    the gameId, and the caller gets the fixed message below, which holds
    nothing of what the engine printed or of the inner error. *)
Theorem handshake_failure_cleans_up engine gameId difficulty st :
  handshakeCompletes engine (spawned st) (linesTo (spawned st) (stdin st)) difficulty = false ->
  exists st',
    initializeEngine engine gameId difficulty st
      = (st', Throw "Failed to initialize Stockfish engine.")
    /\ spawned st' = S (spawned st)
    /\ running st' !! spawned st = None
    /\ stockfishProcesses st' !! gameId = None.
Proof.
  intros Hfail.
  pose proof (initializeEngine_spec engine gameId difficulty st) as Hrun.
  cbv zeta in Hrun.
  destruct (initializeEngine engine gameId difficulty st) as [st' r].
  rewrite Hfail in Hrun. destruct Hrun as (Hspawned & -> & Hregistry & Hrunning).
  exists st'. split; [done|]. split; [done|]. split.
  - rewrite Hrunning. apply lookup_delete_eq.
  - rewrite Hregistry. apply lookup_delete_eq.
Qed.

(** The scenario of the specification: a process that never prints [uciok]. *)
Lemma handshake_failure_cleans_up_witness :
  exists st',
    initializeEngine Fixtures.mute "g1" 5 noEngines
      = (st', Throw "Failed to initialize Stockfish engine.")
    /\ spawned st' = 1
    /\ running st' !! 0 = None
    /\ stockfishProcesses st' !! "g1" = None.
Proof. apply (handshake_failure_cleans_up Fixtures.mute "g1" 5 noEngines). reflexivity. Defined.





End stockfishFacts.

(** * Facts about the game service *)
Module gameFacts.
Import stockfishService gameService.
Local Open Scope Z_scope.

Lemma getCpValue_cp e : type e = "cp" -> getCpValue e = value e.
Proof. intros H. unfold getCpValue. by rewrite H. Qed.

Lemma getCpValue_mate e :
  type e = "mate" -> getCpValue e = Z.sgn (value e) * (MATE_VALUE - Z.abs (value e)).
Proof.
  intros H. unfold getCpValue. rewrite H. simpl.
  case_bool_decide as Hz; [|done]. by rewrite Hz.
Qed.

(** C3 (as amended).  [getCpValue] maps a mate in N to sign(N) times
    (10000 - |N|).  While |N| is below 10000 the sign is kept; of two mates of
    the same sign in at most 10000 moves the faster has the strictly larger
    magnitude; and a mate in N outranks every centipawn score whose
    magnitude is below 10000 - |N|. *)
Theorem mate_scale (faster : Evaluation) :
  type faster = "mate" ->
  getCpValue faster = Z.sgn (value faster) * (MATE_VALUE - Z.abs (value faster))
  /\ (Z.abs (value faster) < MATE_VALUE ->
      Z.sgn (getCpValue faster) = Z.sgn (value faster))
  /\ (forall slower,
        type slower = "mate" ->
        Z.sgn (value slower) = Z.sgn (value faster) ->
        0 < Z.abs (value faster) < Z.abs (value slower) ->
        Z.abs (value slower) <= MATE_VALUE ->
        Z.abs (getCpValue slower) < Z.abs (getCpValue faster))
  /\ (forall centipawns,
        type centipawns = "cp" ->
        0 < Z.abs (value faster) ->
        Z.abs (value centipawns) + Z.abs (value faster) < MATE_VALUE ->
        Z.abs (getCpValue centipawns) < Z.abs (getCpValue faster)).
Proof.
  intros Hmate. rewrite getCpValue_mate by done. unfold MATE_VALUE.
  split; [done|]. split; [|split].
  - intros Hsmall. destruct (value faster); simpl in *; lia.
  - intros slower Hslower Hsign Hfewer Hbound. rewrite getCpValue_mate by done.
    unfold MATE_VALUE. destruct (value faster), (value slower); simpl in *; lia.
  - intros centipawns Hcp Hpos Hbound. rewrite getCpValue_cp by done.
    destruct (value faster); simpl in *; lia.
Qed.


Lemma cpActualResult_flipped evalAfter :
  ~ (type evalAfter = "mate" /\ value evalAfter = 0) ->
  cpActualResult evalAfter = - getCpValue evalAfter.
Proof.
  intros H. unfold cpActualResult.
  destruct (bool_decide (type evalAfter = "mate")) eqn:Ht;
    destruct (bool_decide (value evalAfter = 0)) eqn:Hv; simpl; try lia.
  apply bool_decide_eq_true in Ht, Hv. tauto.
Qed.

Lemma cpActualResult_mate_delivered :
  cpActualResult {| type := "mate"; value := 0 |} = MATE_VALUE.
Proof. reflexivity. Qed.

Lemma moveQuality_blunder bestMoveStart evalStart evalAfter :
  isBlunder (moveQuality true bestMoveStart evalStart evalAfter) = true
  <-> BLUNDER_THRESHOLD < evalDiff evalStart evalAfter.
Proof.
  unfold moveQuality, BLUNDER_THRESHOLD, MISTAKE_THRESHOLD.
  destruct (Z.gtb_spec (evalDiff evalStart evalAfter) 300); simpl; [done|].
  destruct (Z.gtb_spec (evalDiff evalStart evalAfter) 150); simpl; [split; [done|lia]|].
  destruct (_ && _); simpl; split; (done || lia).
Qed.

Lemma moveQuality_mistake bestMoveStart evalStart evalAfter :
  isMistake (moveQuality true bestMoveStart evalStart evalAfter) = true
  <-> MISTAKE_THRESHOLD < evalDiff evalStart evalAfter <= BLUNDER_THRESHOLD
      \/ (evalDiff evalStart evalAfter <= MISTAKE_THRESHOLD
          /\ type evalStart = "mate" /\ type evalAfter <> "mate").
Proof.
  unfold moveQuality, BLUNDER_THRESHOLD, MISTAKE_THRESHOLD.
  destruct (Z.gtb_spec (evalDiff evalStart evalAfter) 300); simpl.
  { split; [done|]. intros [?|[? _]]; lia. }
  destruct (Z.gtb_spec (evalDiff evalStart evalAfter) 150); simpl.
  { split; [left; lia|done]. }
  destruct (bool_decide (type evalStart = "mate")) eqn:Hs;
    destruct (bool_decide (type evalAfter = "mate")) eqn:Ha; simpl;
    try apply bool_decide_eq_true in Hs; try apply bool_decide_eq_true in Ha;
    try apply bool_decide_eq_false in Hs; try apply bool_decide_eq_false in Ha.
  - split; [done|]. intros [?|(_ & _ & ?)]; [lia|done].
  - split; [|done]. intros _. right. done.
  - split; [done|]. intros [?|(_ & ? & _)]; [lia|done].
  - split; [done|]. intros [?|(_ & ? & _)]; [lia|done].
Qed.

Section Analysis.
Context {Chess : Type} `{!chessjs.RulesEngine Chess}.
Context (engine : EngineBehaviour).

Lemma analyzePly_next players i moveSan st position evalAfter next :
  chessjs.move (chess st) moveSan = Some position ->
  evaluateAfter engine position = Ok (evalAfter, next) ->
  analyzePly engine players i moveSan st
  = Next {| chess := position; currentAnalysis := next;
            analysisResults :=
              analysisResults st ++ [entryOf players i moveSan st position evalAfter] |}.
Proof. intros Hmove Heval. unfold analyzePly. by rewrite Hmove, Heval. Qed.

Lemma analyzePly_break players i moveSan st :
  chessjs.move (chess st) moveSan = None ->
  analyzePly engine players i moveSan st = Break.
Proof. intros Hmove. unfold analyzePly. by rewrite Hmove. Qed.

(** C4 (as amended).  On a ply played by the human that does not deliver
    checkmate, the drop is the evaluation before the move minus the
    sign-flipped evaluation after it; the ply is a blunder exactly when the
    drop exceeds 300, and a mistake exactly when the drop is above 150 and at
    most 300, or is at most 150 while a forced mate was given up.  So without
    a missed mate a drop of 150 flags nothing, 151 a mistake, 301 a
    blunder. *)
Theorem human_ply_thresholds players i moveSan st position evalAfter next :
  chessjs.move (chess st) moveSan = Some position ->
  evaluateAfter engine position = Ok (evalAfter, next) ->
  isHumanMove players (chessjs.turn (chess st)) = true ->
  ~ (type evalAfter = "mate" /\ value evalAfter = 0) ->
  let evalStart := currentEvaluation (currentAnalysis st) in
  let drop := getCpValue evalStart - (- getCpValue evalAfter) in
  exists entry st',
    analyzePly engine players i moveSan st = Next st'
    /\ analysisResults st' = analysisResults st ++ [entry]
    /\ (Game.Entry.isBlunder entry = true <-> 300 < drop)
    /\ (Game.Entry.isMistake entry = true <->
        150 < drop <= 300
        \/ (drop <= 150 /\ type evalStart = "mate" /\ type evalAfter <> "mate")).
Proof.
  intros Hmove Heval Hhuman Hnomate evalStart drop.
  exists (entryOf players i moveSan st position evalAfter). eexists.
  split; [by apply analyzePly_next|]. split; [done|].
  assert (evalDiff evalStart evalAfter = drop) as Hdrop.
  { unfold evalDiff, drop. by rewrite cpActualResult_flipped. }
  unfold entryOf; simpl. rewrite Hhuman. fold evalStart.
  rewrite moveQuality_blunder, moveQuality_mistake, Hdrop.
  unfold BLUNDER_THRESHOLD, MISTAKE_THRESHOLD. split; reflexivity.
Qed.

(** C5 (as amended).  A human ply that goes from a forced mate to a
    centipawn evaluation is always flagged: as a mistake whenever the drop is
    at most 300, however small, and as a blunder, not a mistake, when the
    drop exceeds 300. *)
Theorem missed_mate_is_flagged players i moveSan st position evalAfter next :
  chessjs.move (chess st) moveSan = Some position ->
  evaluateAfter engine position = Ok (evalAfter, next) ->
  isHumanMove players (chessjs.turn (chess st)) = true ->
  type (currentEvaluation (currentAnalysis st)) = "mate" ->
  type evalAfter = "cp" ->
  let drop := getCpValue (currentEvaluation (currentAnalysis st)) - (- value evalAfter) in
  exists entry st',
    analyzePly engine players i moveSan st = Next st'
    /\ analysisResults st' = analysisResults st ++ [entry]
    /\ (drop <= 300 ->
        Game.Entry.isMistake entry = true /\ Game.Entry.isBlunder entry = false)
    /\ (300 < drop ->
        Game.Entry.isMistake entry = false /\ Game.Entry.isBlunder entry = true).
Proof.
  intros Hmove Heval Hhuman Hmate Hcp drop.
  exists (entryOf players i moveSan st position evalAfter). eexists.
  split; [by apply analyzePly_next|]. split; [done|].
  assert (evalDiff (currentEvaluation (currentAnalysis st)) evalAfter = drop) as Hdrop.
  { unfold evalDiff, drop.
    rewrite cpActualResult_flipped by (intros [Hm _]; congruence).
    by rewrite (getCpValue_cp evalAfter). }
  unfold entryOf; simpl. rewrite Hhuman.
  unfold moveQuality, BLUNDER_THRESHOLD, MISTAKE_THRESHOLD. rewrite Hdrop, Hmate, Hcp.
  destruct (Z.gtb_spec drop 300); simpl; [split; [lia|done]|].
  split; [|lia]. intros _.
  destruct (Z.gtb_spec drop 150); done.
Qed.


Lemma replay_app players played later i st :
  replay engine players (played ++ later) i st
  = match replay engine players played i st with
    | Completed st' => replay engine players later (i + length played) st'
    | stopped => stopped
    end.
Proof.
  revert i st. induction played as [|moveSan played IH]; intros i st; simpl.
  - by rewrite Nat.add_0_r.
  - destruct (analyzePly engine players i moveSan st); [|done..].
    rewrite IH. by rewrite Nat.add_succ_r.
Qed.

Lemma replay_length players moves i st st' :
  replay engine players moves i st = Completed st' ->
  length (analysisResults st') = (length (analysisResults st) + length moves)%nat.
Proof.
  revert i st. induction moves as [|moveSan moves IH]; intros i st; simpl.
  - intros [= <-]. lia.
  - unfold analyzePly at 1.
    destruct (chessjs.move (chess st) moveSan) as [position|]; [|done].
    destruct (evaluateAfter engine position) as [[evalAfter next]|]; [|done].
    intros Hlen%IH. simpl in Hlen. rewrite length_app in Hlen. simpl in Hlen. lia.
Qed.

Lemma replay_stops_at_illegal_move players played bad later i st st' :
  replay engine players played i st = Completed st' ->
  chessjs.move (chess st') bad = None ->
  replay engine players (played ++ bad :: later) i st = Aborted st'.
Proof.
  intros Hplayed Hbad. rewrite replay_app, Hplayed. simpl.
  by rewrite analyzePly_break.
Qed.

Lemma analyzeGame_stores s gameId gameDoc baseline st :
  games s !! gameId = Some gameDoc ->
  Game.gameId gameDoc = gameId ->
  Game.status gameDoc = Game.finished ->
  Game.analysis gameDoc = [] ->
  analyzePosition engine (chessjs.fen chessjs.newChess) = Ok baseline ->
  (replay engine (Game.players gameDoc) (Game.moves gameDoc) 0 (startReplay baseline)
     = Completed st
   \/ replay engine (Game.players gameDoc) (Game.moves gameDoc) 0 (startReplay baseline)
     = Aborted st) ->
  exists s',
    analyzeGame engine gameId s = (s', Ok (Some (setAnalysis (analysisResults st) Game.finished gameDoc)))
    /\ games s' !! gameId = Some (setAnalysis (analysisResults st) Game.finished gameDoc).
Proof.
  intros Hdoc Hid Hfinished Hfresh Hbase Hreplay.
  unfold analyzeGame, bind, findOne at 1. rewrite Hdoc, Hfinished, Hfresh. simpl.
  unfold liftResult. rewrite Hbase.
  destruct Hreplay as [-> | ->]; simpl; unfold findOne; simpl;
    rewrite Hid, lookup_alter_eq, lookup_insert_eq; simpl;
    (eexists; split; [reflexivity|]); simpl;
    by rewrite lookup_alter_eq, lookup_insert_eq.
Qed.

(** C1 (as amended).  When a recorded move cannot be replayed, the loop is
    left at that ply; [analyzeGame] then stores exactly the entries of the
    plies before it, one per ply, sets the status back to [finished], and
    resolves with the updated document: the caller gets no error. *)
Theorem corrupted_replay_is_stored_as_finished s gameId gameDoc baseline played bad later st :
  games s !! gameId = Some gameDoc ->
  Game.gameId gameDoc = gameId ->
  Game.status gameDoc = Game.finished ->
  Game.analysis gameDoc = [] ->
  Game.moves gameDoc = played ++ bad :: later ->
  analyzePosition engine (chessjs.fen chessjs.newChess) = Ok baseline ->
  replay engine (Game.players gameDoc) played 0 (startReplay baseline) = Completed st ->
  chessjs.move (chess st) bad = None ->
  exists s' updated,
    analyzeGame engine gameId s = (s', Ok (Some updated))
    /\ games s' !! gameId = Some updated
    /\ Game.analysis updated = analysisResults st
    /\ length (analysisResults st) = length played
    /\ Game.status updated = Game.finished
    /\ Game.moves updated = Game.moves gameDoc.
Proof.
  intros Hdoc Hid Hfinished Hfresh Hmoves Hbase Hplayed Hbad.
  destruct (analyzeGame_stores s gameId gameDoc baseline st) as (s' & Hrun & Hstored);
    try done.
  { right. rewrite Hmoves. by apply replay_stops_at_illegal_move. }
  exists s', (setAnalysis (analysisResults st) Game.finished gameDoc).
  repeat split; try done.
  by rewrite (replay_length _ _ _ _ _ Hplayed).
Qed.

(** C2 (as amended).  When the last ply is a checkmate delivered by the
    human, the evaluation after it is the synthesized mate in 0, scored for
    the mover as the mate bonus 10000 whatever the evaluation before; and
    the entry of that ply carries neither flag, provided the evaluation
    before the move is worth at most 10150 on the common scale. *)
Theorem human_checkmate_not_flagged players moves i st0 st moveSan position :
  replay engine players moves i st0 = Completed st ->
  chessjs.move (chess st) moveSan = Some position ->
  chessjs.isGameOver position = true ->
  chessjs.isCheckmate position = true ->
  isHumanMove players (chessjs.turn (chess st)) = true ->
  getCpValue (currentEvaluation (currentAnalysis st)) <= 10150 ->
  let delivered := {| type := "mate"; value := 0 |} in
  exists entry st',
    replay engine players (moves ++ [moveSan]) i st0 = Completed st'
    /\ analysisResults st' = analysisResults st ++ [entry]
    /\ Game.Entry.isMistake entry = false
    /\ Game.Entry.isBlunder entry = false
    /\ evaluateAfter engine position
       = Ok (delivered, {| currentEvaluation := delivered; currentBestMove := None |})
    /\ cpActualResult delivered = MATE_VALUE.
Proof.
  intros Hplayed Hmove Hover Hmate Hhuman Hbound delivered. subst delivered.
  set (delivered := {| type := "mate"; value := 0 |}).
  assert (evaluateAfter engine position
          = Ok (delivered, {| currentEvaluation := delivered; currentBestMove := None |}))
    as Heval.
  { unfold evaluateAfter. by rewrite Hover, Hmate. }
  exists (entryOf players (i + length moves) moveSan st position delivered). eexists.
  split.
  { rewrite replay_app, Hplayed. simpl. by rewrite (analyzePly_next _ _ _ _ _ _ _ Hmove Heval). }
  split; [done|].
  unfold entryOf; simpl. rewrite Hhuman.
  unfold moveQuality, evalDiff.
  change (cpActualResult delivered) with 10000.
  unfold BLUNDER_THRESHOLD, MISTAKE_THRESHOLD.
  destruct (Z.gtb_spec (getCpValue (currentEvaluation (currentAnalysis st)) - 10000) 300);
    [lia|].
  destruct (Z.gtb_spec (getCpValue (currentEvaluation (currentAnalysis st)) - 10000) 150);
    [lia|].
  rewrite andb_false_r. done.
Qed.

(** C10.  For a game in play whose side to move is not the human's colour,
    [makeMove] throws for every submitted move and leaves the whole state as
    it was: the position held in [activeGames], the stored document, the
    engines, the broadcasts. *)
Theorem makeMove_out_of_turn s gameId move gameData gameDoc :
  activeGames s !! gameId = Some gameData ->
  games s !! gameId = Some gameDoc ->
  Game.status gameDoc = Game.playing ->
  chessjs.turn (chessInstance gameData) <> humanPlayerColor (players gameData) ->
  makeMove engine gameId move s
  = (s, Throw ("It's not the human's turn. Current turn: "
               +:+ chessjs.showColor (chessjs.turn (chessInstance gameData)))).
Proof.
  intros Hactive Hdoc Hplaying Hturn.
  unfold makeMove, bind, activeGet, findOne. rewrite Hactive, Hdoc, Hplaying. simpl.
  rewrite bool_decide_eq_false_2 by congruence. done.
Qed.

End Analysis.
Import Fixtures.

(** Mate in 1 against mate in 5 and against +9000; mate in 4 for the
    opponent keeps its sign. *)
Lemma mate_scale_witness :
  getCpValue (mate 1) = 9999
  /\ Z.sgn (getCpValue (mate (-4))) = -1
  /\ Z.abs (getCpValue (mate 5)) < Z.abs (getCpValue (mate 1))
  /\ Z.abs (getCpValue (cp 9000)) < Z.abs (getCpValue (mate 1)).
Proof.
  destruct (mate_scale (mate 1) eq_refl) as (Hvalue & _ & Hfaster & Hcp).
  destruct (mate_scale (mate (-4)) eq_refl) as (_ & Hsign & _).
  split; [exact Hvalue|]. split; [apply Hsign; reflexivity|]. split.
  - apply (Hfaster (mate 5)); [reflexivity | reflexivity | simpl; lia | discriminate].
  - apply (Hcp (cp 9000)); reflexivity.
Defined.

(** C3, as the specification words it, fails outside that range: mate in 1
    maps to 9999, below a centipawn score of 10000; mate in 20000 maps to a
    larger magnitude than mate in 3; and mate in 10001 changes sign. *)
Lemma mate_does_not_outrank_every_centipawn_score :
  Z.abs (getCpValue (mate 1)) < Z.abs (getCpValue (cp 10000))
  /\ Z.abs (getCpValue (mate 3)) < Z.abs (getCpValue (mate 20000))
  /\ Z.sgn (getCpValue (mate 10001)) = -1.
Proof. vm_compute. done. Qed.

(** The example of the specification: +120 before, +420 for the opponent
    after, a drop of 540. *)
Lemma human_ply_thresholds_witness :
  let st := standingAt 1 (cp 120) "e7e5" in
  let engine := answering "d2d4" (fun _ => cp 420) in
  let drop := getCpValue (cp 120) - (- getCpValue (cp 420)) in
  exists entry st',
    analyzePly engine humanBlack 1 "e5" st = Next st'
    /\ analysisResults st' = analysisResults st ++ [entry]
    /\ (Game.Entry.isBlunder entry = true <-> 300 < drop)
    /\ (Game.Entry.isMistake entry = true <->
        150 < drop <= 300
        \/ (drop <= 150 /\ type (cp 120) = "mate" /\ type (cp 420) <> "mate")).
Proof.
  apply (human_ply_thresholds (answering "d2d4" (fun _ => cp 420)) humanBlack 1 "e5"
           (standingAt 1 (cp 120) "e7e5") 2%nat (cp 420)
           {| currentEvaluation := cp 420; currentBestMove := Some "d2d4" |}).
  - reflexivity.
  - reflexivity.
  - reflexivity.
  - intros [Hmate _]. discriminate Hmate.
Defined.

(** C4, as the specification words it, fails on a ply that delivers mate:
    with +500 before 2... Qh4#, the drop by sign flip would be 500 - (-0)
    and a blunder, but the code scores the mate as 10000 and flags nothing. *)
Lemma checkmate_ply_is_not_scored_by_sign_flip :
  let st := standingAt 3 (cp 500) "d8h4" in
  let engine := answering "d8h4" (fun _ => cp 20) in
  let drop := getCpValue (cp 500) - (- getCpValue (mate 0)) in
  isHumanMove humanBlack (chessjs.turn (chess st)) = true
  /\ evaluateAfter engine 4%nat
     = Ok (mate 0, {| currentEvaluation := mate 0; currentBestMove := None |})
  /\ 300 < drop
  /\ exists st',
       analyzePly engine humanBlack 3 "Qh4#" st = Next st'
       /\ Game.Entry.isBlunder <$> analysisResults st' = [false].
Proof. vm_compute. repeat split; try done. eexists. done. Qed.

(** A mate in 3 given up for a position still rated +9900: the drop is 97. *)
Lemma missed_mate_is_flagged_witness :
  let st := standingAt 2 (mate 3) "d1h5" in
  let engine := answering "d8h4" (fun _ => cp (-9900)) in
  let drop := getCpValue (mate 3) - (- (-9900)) in
  exists entry st',
    analyzePly engine humanWhite 2 "g4" st = Next st'
    /\ analysisResults st' = analysisResults st ++ [entry]
    /\ (drop <= 300 ->
        Game.Entry.isMistake entry = true /\ Game.Entry.isBlunder entry = false)
    /\ (300 < drop ->
        Game.Entry.isMistake entry = false /\ Game.Entry.isBlunder entry = true).
Proof.
  apply (missed_mate_is_flagged (answering "d8h4" (fun _ => cp (-9900))) humanWhite 2 "g4"
           (standingAt 2 (mate 3) "d1h5") 3%nat (cp (-9900))
           {| currentEvaluation := cp (-9900); currentBestMove := Some "d8h4" |});
    reflexivity.
Defined.

(** C5, as the specification words it, fails: a mate in 2 given up for a
    position rated +50 for the opponent is a drop of 10048, which the first
    test of the chain turns into a blunder; it is not marked as a mistake. *)
Lemma missed_mate_with_large_drop_is_a_blunder :
  let st := standingAt 2 (mate 2) "d1h5" in
  let engine := answering "d8h4" (fun _ => cp 50) in
  isHumanMove humanWhite (chessjs.turn (chess st)) = true
  /\ exists st',
       analyzePly engine humanWhite 2 "g4" st = Next st'
       /\ Game.Entry.isMistake <$> analysisResults st' = [false]
       /\ Game.Entry.isBlunder <$> analysisResults st' = [true].
Proof. vm_compute. split; [done|]. eexists. done. Qed.

(** The fool's mate with Black as the human, the position before
    2... Qh4# rated +9999 for Black. *)
Lemma human_checkmate_not_flagged_witness :
  let engine := ratingBeforeMate 9999 in
  let before := replayed engine humanBlack ["f3"; "e5"; "g4"] (found "e2e4" (cp 20)) in
  let delivered := {| type := "mate"; value := 0 |} in
  exists entry st',
    replay engine humanBlack (["f3"; "e5"; "g4"] ++ ["Qh4#"]) 0
      (startReplay (found "e2e4" (cp 20))) = Completed st'
    /\ analysisResults st' = analysisResults before ++ [entry]
    /\ Game.Entry.isMistake entry = false
    /\ Game.Entry.isBlunder entry = false
    /\ evaluateAfter engine 4%nat
       = Ok (delivered, {| currentEvaluation := delivered; currentBestMove := None |})
    /\ cpActualResult delivered = MATE_VALUE.
Proof.
  apply (human_checkmate_not_flagged (ratingBeforeMate 9999) humanBlack
           ["f3"; "e5"; "g4"] 0 (startReplay (found "e2e4" (cp 20)))
           (replayed (ratingBeforeMate 9999) humanBlack ["f3"; "e5"; "g4"] (found "e2e4" (cp 20)))
           "Qh4#" 4%nat).
  - vm_compute. reflexivity.
  - reflexivity.
  - reflexivity.
  - reflexivity.
  - reflexivity.
  - vm_compute. discriminate.
Defined.

(** C2, as the specification words it, fails: the bound of the theorem is
    needed.  With the position before 2... Qh4# rated +10301 for Black, the
    mating move of the human is stored as a blunder. *)
Lemma human_checkmate_flagged_as_blunder :
  let '(s', r) :=
    analyzeGame (ratingBeforeMate 10301) "g1" (serverWith noEngines ∅ [foolsMateGame]) in
  exists updated,
    r = Ok (Some updated)
    /\ Game.Entry.move <$> last (Game.analysis updated) = Some "Qh4#"
    /\ Game.Entry.color <$> last (Game.analysis updated) = Some "black"
    /\ Game.Entry.isBlunder <$> last (Game.analysis updated) = Some true.
Proof. vm_compute. eexists. done. Qed.

(** The stored game 1. f3 e5 2. Ke5: the third move cannot be played. *)
Lemma corrupted_replay_is_stored_as_finished_witness :
  let engine := answering "e2e4" (fun _ => cp 20) in
  let s := serverWith noEngines ∅ [corruptedGame] in
  let st := replayed engine humanWhite ["f3"; "e5"] (found "e2e4" (cp 20)) in
  exists s' updated,
    analyzeGame engine "g2" s = (s', Ok (Some updated))
    /\ games s' !! "g2" = Some updated
    /\ Game.analysis updated = analysisResults st
    /\ length (analysisResults st) = length ["f3"; "e5"]
    /\ Game.status updated = Game.finished
    /\ Game.moves updated = Game.moves corruptedGame.
Proof.
  apply (corrupted_replay_is_stored_as_finished (answering "e2e4" (fun _ => cp 20))
           (serverWith noEngines ∅ [corruptedGame]) "g2" corruptedGame
           (found "e2e4" (cp 20)) ["f3"; "e5"] "Ke5" ["Qh4#"]
           (replayed (answering "e2e4" (fun _ => cp 20)) humanWhite ["f3"; "e5"]
              (found "e2e4" (cp 20)))).
  - vm_compute. reflexivity.
  - reflexivity.
  - reflexivity.
  - reflexivity.
  - reflexivity.
  - reflexivity.
  - vm_compute. reflexivity.
  - reflexivity.
Defined.

(** C1, as the specification words it, fails: on the game whose third move
    is illegal, [analyzeGame] does not throw, and it stores the two entries
    with the status [finished]. *)
Lemma replay_failure_is_not_surfaced :
  let '(s', r) :=
    analyzeGame (answering "e2e4" (fun _ => cp 20)) "g2"
      (serverWith noEngines ∅ [corruptedGame]) in
  isThrow r = false
  /\ Game.status <$> games s' !! "g2" = Some Game.finished
  /\ length <$> (Game.analysis <$> games s' !! "g2") = Some 2%nat.
Proof. vm_compute. done. Qed.

(** After 1. f3 the human, who has White, submits another move. *)
Lemma makeMove_out_of_turn_witness :
  makeMove (answering "e7e5" (fun _ => cp 20)) "g3" "e4" waitingForComputer
  = (waitingForComputer, Throw "It's not the human's turn. Current turn: b").
Proof.
  refine (makeMove_out_of_turn (answering "e7e5" (fun _ => cp 20)) waitingForComputer "g3" "e4"
            {| chessInstance := 1%nat; players := humanWhite; difficulty := 5 |}
            (stored "g3" humanWhite 1 ["f3"] Game.playing "*") _ _ _ _).
  - reflexivity.
  - reflexivity.
  - reflexivity.
  - discriminate.
Defined.

End gameFacts.

(** * Facts about the rest of the engine service *)
Module engineFacts.
Import stockfishConfig stockfishService stockfishFacts.

Lemma awaitTerminator_None chunks terminator buffer :
  awaitTerminator chunks terminator buffer = None
  <-> Forall (fun chunk => includes chunk terminator = false) chunks.
Proof.
  revert buffer. induction chunks as [|chunk later IH]; intros buffer; simpl.
  - split; [constructor|done].
  - destruct (includes chunk terminator) eqn:E.
    + split; [done|]. intros Hall. inversion Hall; congruence.
    + rewrite IH. split; [by constructor|]. intros Hall. by inversion Hall.
Qed.

(** X1.  [sendCommandAndAwaitResponse] writes the command with a line feed
    to the process it is given and touches nothing else.  It fails exactly
    when no chunk that arrives in time contains the terminator, and then
    with the message that names the command; it has no other error. *)
Theorem command_times_out_iff_no_chunk_has_terminator
    engine engineProcess command expectedResponseEnd st :
  let heard :=
    stdout engine engineProcess
      (linesTo engineProcess (stdin st) ++ [command +:+ newline]) in
  let '(st', r) :=
    sendCommandAndAwaitResponse engine engineProcess command expectedResponseEnd st in
  stdin st' = stdin st ++ [(engineProcess, command +:+ newline)]
  /\ stockfishProcesses st' = stockfishProcesses st
  /\ running st' = running st
  /\ (r = Throw ("Stockfish command timed out: " +:+ command)
      <-> Forall (fun chunk => includes chunk expectedResponseEnd = false) heard)
  /\ (isThrow r = true -> r = Throw ("Stockfish command timed out: " +:+ command)).
Proof.
  cbv zeta. rewrite sendCommandAndAwaitResponse_run. cbv zeta.
  split; [done|]. split; [done|]. split; [done|].
  rewrite <- awaitTerminator_None with (buffer := "").
  destruct (awaitTerminator _ _ _) as [buffer|] eqn:E; by repeat split.
Qed.

(** X2.  [terminateEngine] never throws and leaves no entry for the game;
    the sessions of other games stay as they are; without a session it
    changes nothing, so a second call in a row is a no-op. *)
Theorem terminateEngine_is_idempotent gameId st :
  let '(st', r) := terminateEngine gameId st in
  r = Ok tt
  /\ stockfishProcesses st' !! gameId = None
  /\ (forall other, other <> gameId ->
        stockfishProcesses st' !! other = stockfishProcesses st !! other)
  /\ (stockfishProcesses st !! gameId = None -> st' = st)
  /\ terminateEngine gameId st' = (st', Ok tt).
Proof.
  rewrite terminateEngine_run.
  destruct (stockfishProcesses st !! gameId) as [engineEntry|] eqn:E; simpl.
  - split; [done|]. split; [apply lookup_delete_eq|]. split.
    { intros other Hother. by rewrite lookup_delete_ne. }
    split; [done|]. rewrite terminateEngine_run. simpl. by rewrite lookup_delete_eq.
  - split; [done|]. split; [done|]. split; [done|]. split; [done|].
    rewrite terminateEngine_run. by rewrite E.
Qed.

Ltac lines :=
  rewrite <- ?app_assoc; simpl;
  rewrite ?linesTo_app, ?linesTo_cons, ?linesTo_nil;
  rewrite <- ?app_assoc; simpl.

Ltac await :=
  match goal with
  | |- context [match awaitTerminator ?chunks ?terminator ?buffer with _ => _ end] =>
      destruct (awaitTerminator chunks terminator buffer) eqn:?; simpl
  end.

Lemma handshake_stdin engine gameId difficulty st :
  let pid := spawned st in
  let '(st', r) := handshake engine gameId difficulty st in
  r = Ok tt ->
  exists config,
    getStockfishOptionsForDifficulty difficulty = Ok config
    /\ stdin st'
       = stdin st
         ++ ((fun line => (pid, line +:+ newline))
               <$> ("uci" :: options config ++ ["isready"; "ucinewgame"; "isready"])).
Proof.
  unfold handshake.
  unfold bind at 1. unfold spawn at 1. unfold bind at 1. unfold registrySet, modify; simpl.
  unfold bind at 1. rewrite sendCommandAndAwaitResponse_run; simpl.
  await; [|done].
  unfold bind at 1, liftResult. unfold getStockfishOptionsForDifficulty.
  destruct (stockfishDifficultyLevels difficulty) as [config|] eqn:EL; simpl; [|done].
  unfold bind, write, modify; simpl.
  rewrite sendCommandAndAwaitResponse_run; simpl. lines.
  await; [|done].
  rewrite sendCommandAndAwaitResponse_run; simpl. lines.
  await; [|done].
  intros _. eexists. split; [reflexivity|]. simpl. by rewrite <- ?app_assoc.
Qed.

(** X3.  A start that succeeds has registered the process it spawned, with
    an empty buffer, and has sent it, in this order and each with a line
    feed: [uci], the four option lines of the level, [isready],
    [ucinewgame], [isready]; nothing else was written. *)
Theorem initializeEngine_speaks_the_protocol engine gameId difficulty st :
  let pid := spawned st in
  let '(st', r) := initializeEngine engine gameId difficulty st in
  r = Ok tt ->
  exists config,
    getStockfishOptionsForDifficulty difficulty = Ok config
    /\ stockfishProcesses st' !! gameId = Some {| process := pid; responseBuffer := "" |}
    /\ running st' !! pid = Some gameId
    /\ stdin st'
       = stdin st
         ++ ((fun line => (pid, line +:+ newline))
               <$> ("uci" :: options config ++ ["isready"; "ucinewgame"; "isready"])).
Proof.
  cbv zeta.
  pose proof (initializeEngine_spec engine gameId difficulty st) as Hspec. cbv zeta in Hspec.
  pose proof (handshake_stdin engine gameId difficulty (terminateEngine gameId st).1) as Hlines.
  cbv zeta in Hlines.
  rewrite initializeEngine_run in *. unfold tryCatch in *.
  rewrite terminateEngine_spawned, terminateEngine_stdin in Hlines.
  destruct (handshake engine gameId difficulty _) as [st1 [[]|e]].
  - intros _. destruct (Hlines eq_refl) as (config & Hconfig & Hstdin).
    destruct Hspec as [_ Hspec].
    destruct (handshakeCompletes _ _ _ _); destruct Hspec as (Hr & Hreg & Hrun); [|done].
    exists config. rewrite Hreg, Hrun, !lookup_insert_eq. done.
  - unfold abandon, bind, throw.
    unfold registryGet, kill, registryDelete, modify.
    by destruct (stockfishProcesses st1 !! gameId).
Qed.

(** X4.  Starting an engine for one game, whether it succeeds or fails,
    leaves the session of every other game registered and its process
    alive. *)
Theorem initializeEngine_spares_other_games engine gameId difficulty st other entry :
  reachable st ->
  other <> gameId ->
  stockfishProcesses st !! other = Some entry ->
  let st' := (initializeEngine engine gameId difficulty st).1 in
  stockfishProcesses st' !! other = Some entry
  /\ running st' !! process entry = Some other.
Proof.
  intros Hreach Hother Hentry. cbv zeta.
  pose proof (reachable_owns st Hreach) as [Hown Hlt].
  assert (running st !! process entry = Some other) as Hlive by (apply Hown; eauto).
  pose proof (Hlt _ _ Hlive) as Hold.
  pose proof (initializeEngine_spec engine gameId difficulty st) as Hspec. cbv zeta in Hspec.
  destruct (initializeEngine engine gameId difficulty st) as [st' r]. simpl.
  destruct Hspec as [_ Hspec].
  assert (stockfishProcesses (terminateEngine gameId st).1 !! other = Some entry
          /\ running (terminateEngine gameId st).1 !! process entry = Some other)
    as [Hbase Hbaselive].
  { rewrite terminateEngine_run.
    destruct (stockfishProcesses st !! gameId) as [old|] eqn:Eold; simpl; [|done].
    rewrite !lookup_delete_ne; [done| |done].
    intros Hsame.
    assert (running st !! process old = Some gameId) as Hl by (apply Hown; eauto).
    rewrite Hsame in Hl. congruence. }
  destruct (handshakeCompletes _ _ _ _); destruct Hspec as (_ & -> & ->).
  - rewrite !lookup_insert_ne; [done|lia|done].
  - rewrite !lookup_delete_ne; [done|lia|done].
Qed.

(** The first start for the game g1, at level 5, on an engine that follows
    the protocol. *)
Lemma initializeEngine_speaks_the_protocol_witness :
  exists config,
    getStockfishOptionsForDifficulty 5 = Ok config
    /\ stockfishProcesses Scenarios.started !! "g1"
       = Some {| process := 0; responseBuffer := "" |}
    /\ running Scenarios.started !! 0 = Some "g1"
    /\ stdin Scenarios.started
       = (fun line => (0, line +:+ newline))
           <$> ("uci" :: options config ++ ["isready"; "ucinewgame"; "isready"]).
Proof.
  exact (initializeEngine_speaks_the_protocol (Scenarios.replying "e5") "g1" 5 noEngines
           eq_refl).
Defined.

(** With the session of g1 running, a start for g2 on a process that never
    answers fails and leaves g1 as it was. *)
Lemma initializeEngine_spares_other_games_witness :
  let st' := (initializeEngine Fixtures.mute "g2" 5 Scenarios.started).1 in
  stockfishProcesses st' !! "g1" = Some {| process := 0; responseBuffer := "" |}
  /\ running st' !! 0 = Some "g1".
Proof.
  refine (initializeEngine_spares_other_games Fixtures.mute "g2" 5 Scenarios.started "g1"
            {| process := 0; responseBuffer := "" |} _ _ _).
  - exact (reachable_initializeEngine _ _ _ _ reachable_start).
  - discriminate.
  - reflexivity.
Defined.

End engineFacts.

(** * Facts about the reading of the engine output *)
Module outputFacts.
Import Stdlib.Strings.Ascii.
Import stockfishConfig stockfishService stockfishFacts searchOutput.
Local Open Scope js_scope.

Lemma append_String c s t : String c s +:+ t = String c (s +:+ t).
Proof. reflexivity. Qed.

Lemma append_empty s : "" +:+ s = s.
Proof. reflexivity. Qed.

Lemma append_empty_r s : s +:+ "" = s.
Proof. induction s as [|c s IH]; [done|]. by rewrite append_String, IH. Qed.

Lemma append_assoc s t u : (s +:+ t) +:+ u = s +:+ t +:+ u.
Proof. induction s as [|c s IH]; [done|]. by rewrite !append_String, IH. Qed.

Lemma length_append s t : String.length (s +:+ t) = String.length s + String.length t.
Proof. induction s as [|c s IH]; [done|]. rewrite append_String. simpl. by rewrite IH. Qed.

(** *** The pieces of the patterns *)

Lemma literal_app expected rest : literal expected (expected +:+ rest) = Some rest.
Proof.
  induction expected as [|e expected IH]; [done|].
  rewrite append_String. simpl. by rewrite bool_decide_eq_true_2.
Qed.

Lemma literal_Some expected input rest :
  literal expected input = Some rest -> input = expected +:+ rest.
Proof.
  revert input. induction expected as [|e expected IH]; intros input; simpl.
  - by intros [= ->].
  - destruct input as [|c input]; [done|].
    case_bool_decide; [|done]. intros Hm. subst c.
    rewrite append_String. f_equal. by apply IH.
Qed.

Lemma digitRun_split input :
  input = (digitRun input).1 +:+ (digitRun input).2.
Proof.
  induction input as [|c input IH]; [done|]. simpl.
  destruct (isDigit c); [|done].
  destruct (digitRun input) as [run more]. simpl in *.
  by rewrite append_String, <- IH.
Qed.

Lemma digits_Some input run more :
  digits input = Some (run, more) -> input = run +:+ more /\ run <> "".
Proof.
  unfold digits. pose proof (digitRun_split input) as Hs.
  destruct (digitRun input) as [run' more']. simpl in Hs.
  case_bool_decide; [done|]. by intros [= <- <-].
Qed.

Lemma digitRun_app run rest :
  digitRun run = (run, "") -> digitRun rest = ("", rest) ->
  digitRun (run +:+ rest) = (run, rest).
Proof.
  intros Hrun Hrest. induction run as [|c run IH]; [done|].
  rewrite append_String. simpl in *.
  destruct (isDigit c); [|done].
  destruct (digitRun run) as [run' more']. injection Hrun as -> ->.
  by rewrite IH.
Qed.

Lemma digits_app run rest :
  number run -> digitRun rest = ("", rest) -> digits (run +:+ rest) = Some (run, rest).
Proof.
  unfold number, digits. intros Hrun Hrest.
  destruct (digitRun run) as [run' more'] eqn:Hr.
  case_bool_decide; [done|]. injection Hrun as -> ->.
  rewrite (digitRun_app _ _ Hr Hrest). by rewrite bool_decide_eq_false_2.
Qed.

Lemma signedDigits_Some input run more :
  signedDigits input = Some (run, more) -> input = run +:+ more /\ run <> "".
Proof.
  unfold signedDigits. destruct input as [|c input].
  - apply digits_Some.
  - destruct (decide (c = "-"%char)) as [->|Hc].
    + destruct (digits input) as [[run' more']|] eqn:Hd; [|done].
      intros [= <- <-]. apply digits_Some in Hd as [-> _]. by rewrite append_String.
    + intros Hd.
      assert (digits (String c input) = Some (run, more)) as Hd'.
      { revert Hd. destruct c as [[] [] [] [] [] [] [] []]; try done. }
      by apply digits_Some.
Qed.

Lemma signedDigits_app run rest :
  signedNumber run -> digitRun rest = ("", rest) ->
  signedDigits (run +:+ rest) = Some (run, rest).
Proof.
  unfold signedNumber. intros Hrun Hrest.
  destruct run as [|c run]; [done|].
  destruct (decide (c = "-"%char)) as [->|Hc].
  - rewrite append_String. simpl in *.
    destruct (digits run) as [[run' more']|] eqn:Hd; [|done].
    injection Hrun as -> ->. by rewrite (digits_app run rest Hd Hrest).
  - assert (number (String c run)) as Hn.
    { revert Hrun. unfold number. destruct c as [[] [] [] [] [] [] [] []]; try done. }
    rewrite <- (digits_app _ _ Hn Hrest). rewrite append_String.
    destruct c as [[] [] [] [] [] [] [] []]; try done.
Qed.

Lemma lineRest_split input :
  input = (lineRest input).1 +:+ (lineRest input).2.
Proof.
  induction input as [|c input IH]; [done|]. simpl.
  destruct (isLineTerminator c); [done|].
  destruct (lineRest input) as [line more]. simpl in *.
  by rewrite append_String, <- IH.
Qed.

Lemma restOfLine_Some input line more :
  restOfLine input = Some (line, more) -> input = line +:+ more /\ line <> "".
Proof.
  unfold restOfLine. pose proof (lineRest_split input) as Hs.
  destruct (lineRest input) as [line' more']. simpl in Hs.
  case_bool_decide; [done|]. by intros [= <- <-].
Qed.

Lemma lineRest_app line rest :
  lineRest line = (line, "") -> lineRest rest = ("", rest) ->
  lineRest (line +:+ rest) = (line, rest).
Proof.
  intros Hline Hrest. induction line as [|c line IH]; [done|].
  rewrite append_String. simpl in *.
  destruct (isLineTerminator c); [done|].
  destruct (lineRest line) as [line' more']. injection Hline as -> ->.
  by rewrite IH.
Qed.

Lemma restOfLine_app line rest :
  oneLine line -> lineRest rest = ("", rest) ->
  restOfLine (line +:+ rest) = Some (line, rest).
Proof.
  unfold oneLine, restOfLine. intros Hline Hrest.
  destruct (lineRest line) as [line' more'] eqn:Hl.
  case_bool_decide; [done|]. injection Hline as -> ->.
  rewrite (lineRest_app _ _ Hl Hrest). by rewrite bool_decide_eq_false_2.
Qed.

Lemma coordinates_inv move :
  coordinates move ->
  exists f1 r1 f2 r2,
    move = String f1 (String r1 (String f2 (String r2 "")))
    /\ isFile f1 = true /\ isRank r1 = true /\ isFile f2 = true /\ isRank r2 = true.
Proof.
  unfold coordinates, squares.
  destruct move as [|f1 [|r1 [|f2 [|r2 more]]]]; try done.
  destruct (isFile f1) eqn:?, (isRank r1) eqn:?, (isFile f2) eqn:?, (isRank r2) eqn:?;
    simpl; try done.
  intros [= Hm]. exists f1, r1, f2, r2. by rewrite <- Hm at 1.
Qed.

Lemma squares_app move rest :
  coordinates move -> squares (move +:+ rest) = Some (move, rest).
Proof.
  intros (f1 & r1 & f2 & r2 & -> & Hf1 & Hr1 & Hf2 & Hr2)%coordinates_inv.
  rewrite !append_String. simpl. by rewrite Hf1, Hr1, Hf2, Hr2.
Qed.

Lemma squares_Some input move more :
  squares input = Some (move, more) -> input = move +:+ more /\ coordinates move.
Proof.
  unfold coordinates, squares.
  destruct input as [|f1 [|r1 [|f2 [|r2 rest]]]]; try done.
  destruct (isFile f1 && isRank r1 && isFile f2 && isRank r2) eqn:Hc; [|done].
  intros [= <- <-]. by rewrite Hc.
Qed.

(** *** The best-move pattern *)

Lemma bestMoveAt_app move rest :
  coordinates move ->
  bestMoveAt ("bestmove " +:+ move +:+ rest)
  = Some (move, match literal " " rest with
                | Some rest => fst <$> squares rest
                | None => None
                end).
Proof.
  intros Hmove. unfold bestMoveAt.
  by rewrite literal_app, squares_app.
Qed.

Lemma bestMoveAt_Some input move reply :
  bestMoveAt input = Some (move, reply) ->
  exists more, input = "bestmove " +:+ move +:+ more /\ coordinates move.
Proof.
  unfold bestMoveAt.
  destruct (literal "bestmove " input) as [rest|] eqn:Hl; [|done].
  destruct (squares rest) as [[move' more]|] eqn:Hs; [|done].
  intros [= <- _]. apply literal_Some in Hl as ->.
  apply squares_Some in Hs as [-> Hc]. by exists more.
Qed.

Lemma atLineStart_here {A} (pattern : string -> option A) input found :
  pattern input = Some found -> atLineStart pattern true input = Some found.
Proof. intros Hp. destruct input; simpl; by rewrite Hp. Qed.

Lemma bestMoveMatch_line move rest :
  coordinates move ->
  bestMoveMatch ("bestmove " +:+ move +:+ rest)
  = Some (move, match literal " " rest with
                | Some rest => fst <$> squares rest
                | None => None
                end).
Proof. intros Hmove. apply atLineStart_here. by apply bestMoveAt_app. Qed.

(** X8.  When the line that follows [bestmove] names the reply as a second
    move, both moves are captured. *)
Theorem bestmove_with_a_second_move_is_captured (move reply more : string) :
  coordinates move -> coordinates reply ->
  bestMoveMatch ("bestmove " +:+ move +:+ " " +:+ reply +:+ more)
  = Some (move, Some reply).
Proof.
  intros Hmove Hreply. rewrite bestMoveMatch_line by done.
  by rewrite literal_app, squares_app.
Qed.

(** X9.  What the engine prints after the move is lost unless it is a second
    move right after one space: the reply behind the word [ponder] and a
    promotion piece are both dropped, and the move is cut to four
    characters. *)
Theorem bestmove_reply_and_promotion_are_dropped (move : string) :
  coordinates move ->
  bestMoveMatch ("bestmove " +:+ move) = Some (move, None)
  /\ (forall more,
        bestMoveMatch ("bestmove " +:+ move +:+ " ponder " +:+ more) = Some (move, None))
  /\ (forall piece more,
        piece <> " "%char ->
        bestMoveMatch ("bestmove " +:+ move +:+ String piece more) = Some (move, None)).
Proof.
  intros Hmove. split; [|split].
  - rewrite <- (append_empty_r move) at 1. by rewrite bestMoveMatch_line.
  - intros more. rewrite bestMoveMatch_line by done. by rewrite !append_String.
  - intros piece more Hpiece. rewrite bestMoveMatch_line by done.
    simpl. rewrite bool_decide_eq_false_2; [done|]. congruence.
Qed.

Lemma coordinates_length move : coordinates move -> String.length move = 4.
Proof. by intros (f1 & r1 & f2 & r2 & -> & _)%coordinates_inv. Qed.

Lemma coordinates_no_newline move front :
  coordinates move -> move <> front +:+ newline.
Proof.
  intros (f1 & r1 & f2 & r2 & -> & Hf1 & Hr1 & Hf2 & Hr2)%coordinates_inv.
  destruct front as [|c1 [|c2 [|c3 [|c4 front]]]]; try done.
  - intros [= -> -> -> ->]. done.
  - rewrite !append_String. intros [= _ _ _ _ Hn]. by destruct front.
Qed.

Lemma bestMoveAt_short input :
  String.length input <= 12 ->
  bestMoveAt input = None /\ bestMoveAt (input +:+ newline) = None.
Proof.
  intros Hlen. split.
  - destruct (bestMoveAt input) as [[move reply]|] eqn:Hb; [|done].
    apply bestMoveAt_Some in Hb as (more & -> & Hlm%coordinates_length).
    rewrite !length_append, Hlm in Hlen. simpl in Hlen. lia.
  - destruct (bestMoveAt (input +:+ newline)) as [[move reply]|] eqn:Hb; [|done].
    apply bestMoveAt_Some in Hb as (more & Heq & Hc).
    pose proof (coordinates_length _ Hc) as Hlm.
    assert (more = "") as ->.
    { apply (f_equal String.length) in Heq. rewrite !length_append, Hlm in Heq.
      simpl in Heq. destruct more; [done|]. simpl in Heq. lia. }
    rewrite append_empty_r in Heq.
    destruct input as [|c1 [|c2 [|c3 [|c4 [|c5 [|c6 [|c7 [|c8 [|c9 front]]]]]]]]];
      try done.
    rewrite !append_String in Heq. injection Heq as _ _ _ _ _ _ _ _ _ Heq.
    symmetry in Heq. by apply coordinates_no_newline in Heq.
Qed.

Lemma bestMoveMatch_short lineStart input :
  String.length input <= 12 ->
  atLineStart bestMoveAt lineStart input = None
  /\ atLineStart bestMoveAt lineStart (input +:+ newline) = None.
Proof.
  revert lineStart. induction input as [|c input IH]; intros lineStart Hlen.
  - by destruct lineStart.
  - destruct (bestMoveAt_short (String c input) Hlen) as [Hhere Hthere].
    simpl in Hlen. destruct (IH (isLineTerminator c) ltac:(lia)) as [IH1 IH2].
    split.
    + simpl atLineStart. rewrite Hhere. by destruct lineStart.
    + rewrite append_String. simpl atLineStart. rewrite <- append_String, Hthere.
      by destruct lineStart.
Qed.

(** X10.  A best-move line that the stream delivers in two chunks is not seen:
    the pattern is tried on each chunk by itself, and neither part holds a
    whole match. *)
Theorem bestmove_cut_in_two_is_missed (move front back : string) (heard : Heard) :
  coordinates move ->
  front +:+ back = "bestmove " +:+ move ->
  front <> "" -> back <> "" ->
  (listen heard [front; back +:+ newline]).2 = None
  /\ (listen heard [front +:+ back +:+ newline]).2
     = Some {| bestMove := move; ponder := None;
               evaluation := heardEvaluation (hear heard (front +:+ back +:+ newline));
               principalVariation := heardLine (hear heard (front +:+ back +:+ newline)) |}.
Proof.
  intros Hmove Hcut Hfront Hback.
  assert (String.length front <= 12 /\ String.length back <= 12) as [Hlf Hlb].
  { apply (f_equal String.length) in Hcut.
    rewrite !length_append, (coordinates_length _ Hmove) in Hcut. simpl in Hcut.
    destruct front; [done|]. destruct back; [done|]. simpl in *. lia. }
  split.
  - simpl. unfold bestMoveMatch.
    rewrite (proj1 (bestMoveMatch_short true front Hlf)).
    by rewrite (proj2 (bestMoveMatch_short true back Hlb)).
  - simpl. rewrite <- append_assoc, Hcut, append_assoc.
    by rewrite bestMoveMatch_line.
Qed.

(** *** The progress-line pattern *)

Lemma infoTail_Some input text pv more :
  infoTail input = Some (text, pv, more) -> input = text +:+ more.
Proof.
  unfold infoTail.
  repeat match goal with
  | |- context [match literal ?l ?i with _ => _ end] =>
      let E := fresh "E" in
      destruct (literal l i) eqn:E; [apply literal_Some in E as ->|done]
  | |- context [match digits ?i with _ => _ end] =>
      let E := fresh "E" in
      destruct (digits i) as [[? ?]|] eqn:E; [apply digits_Some in E as [-> _]|done]
  | |- context [match restOfLine ?i with _ => _ end] =>
      let E := fresh "E" in
      destruct (restOfLine i) as [[? ?]|] eqn:E;
      [apply restOfLine_Some in E as [-> _]|done]
  end.
  intros [= <- <- <-]. unfold searchPart. by rewrite !append_assoc.
Qed.

Lemma infoAt_Some input text groups more :
  infoAt input = Some (text, groups, more) ->
  input = text +:+ more /\ text <> "".
Proof.
  unfold infoAt.
  repeat match goal with
  | |- context [match literal "cp" ?i with _ => _ end] =>
      let E := fresh "E" in
      destruct (literal "cp" i) eqn:E;
      [apply literal_Some in E as ->
      |clear E; destruct (literal "mate" i) eqn:E;
       [apply literal_Some in E as ->|done]]
  | |- context [match literal ?l ?i with _ => _ end] =>
      let E := fresh "E" in
      destruct (literal l i) eqn:E; [apply literal_Some in E as ->|done]
  | |- context [match digits ?i with _ => _ end] =>
      let E := fresh "E" in
      destruct (digits i) as [[? ?]|] eqn:E; [apply digits_Some in E as [-> _]|done]
  | |- context [match signedDigits ?i with _ => _ end] =>
      let E := fresh "E" in
      destruct (signedDigits i) as [[? ?]|] eqn:E;
      [apply signedDigits_Some in E as [-> _]|done]
  end;
  (destruct (infoTail _) as [[[tail pv] rest]|] eqn:Et;
   [apply infoTail_Some in Et as ->|]; intros [= <- <- <-];
   unfold scorePart; by rewrite !append_assoc).
Qed.

Lemma infoAt_shorter input text groups more :
  infoAt input = Some (text, groups, more) -> String.length more < String.length input.
Proof.
  intros [-> Htext]%infoAt_Some. rewrite length_append.
  destruct text; [done|]. simpl. lia.
Qed.

Lemma infoMatchesWithin_enough budget budget' input :
  String.length input < budget -> String.length input < budget' ->
  infoMatchesWithin budget input = infoMatchesWithin budget' input.
Proof.
  revert budget' input. induction budget as [|budget IH]; intros budget' input Hb Hb';
    [lia|].
  destruct budget' as [|budget']; [lia|]. simpl.
  destruct (infoAt input) as [[[text groups] more]|] eqn:Hat.
  - apply infoAt_shorter in Hat. f_equal. apply IH; lia.
  - destruct input as [|c rest]; [done|]. simpl in *. apply IH; lia.
Qed.

(** The budget of [infoMatches] is never used up: the matches are those of
    the search as the pattern's [g] flag runs it. *)
Lemma infoMatches_step input :
  infoMatches input
  = match infoAt input with
    | Some (text, _, more) => text :: infoMatches more
    | None =>
        match input with
        | "" => []
        | String _ rest => infoMatches rest
        end
    end.
Proof.
  unfold infoMatches at 1. simpl.
  destruct (infoAt input) as [[[text groups] more]|] eqn:Hat.
  - apply infoAt_shorter in Hat. f_equal. apply infoMatchesWithin_enough; lia.
  - destruct input as [|c rest]; [done|]. apply infoMatchesWithin_enough; simpl; lia.
Qed.

Lemma infoAt_score depth seldepth multipv kind score rest :
  number depth -> number seldepth -> number multipv ->
  kind = "cp" \/ kind = "mate" -> signedNumber score ->
  digitRun rest = ("", rest) ->
  infoAt (scorePart depth seldepth multipv kind score +:+ rest)
  = match infoTail rest with
    | Some (tail, pv, more) =>
        Some (scorePart depth seldepth multipv kind score +:+ tail,
              {| scoreType := kind; scoreValue := score; pvString := Some pv |}, more)
    | None =>
        Some (scorePart depth seldepth multipv kind score,
              {| scoreType := kind; scoreValue := score; pvString := None |}, rest)
    end.
Proof.
  intros Hdepth Hseldepth Hmultipv Hkind Hscore Hrest.
  unfold scorePart, infoAt. rewrite !append_assoc.
  rewrite literal_app, (digits_app depth) by done.
  rewrite literal_app, (digits_app seldepth) by done.
  rewrite literal_app, (digits_app multipv) by done.
  rewrite literal_app.
  destruct Hkind as [-> | ->].
  - rewrite literal_app, literal_app, (signedDigits_app score) by done. done.
  - replace (literal "cp" ("mate" +:+ " " +:+ score +:+ rest)) with (@None string) by done.
    rewrite literal_app, literal_app, (signedDigits_app score) by done. done.
Qed.

Lemma infoTail_search nodes nps hashfull tbhits time pv rest :
  number nodes -> number nps -> number hashfull -> number tbhits -> number time ->
  oneLine pv -> lineRest rest = ("", rest) ->
  infoTail (searchPart nodes nps hashfull tbhits time pv +:+ rest)
  = Some (searchPart nodes nps hashfull tbhits time pv, pv, rest).
Proof.
  intros Hnodes Hnps Hhashfull Htbhits Htime Hpv Hrest.
  unfold searchPart, infoTail. rewrite !append_assoc.
  rewrite literal_app, (digits_app nodes) by done.
  rewrite literal_app, (digits_app nps) by done.
  rewrite literal_app, (digits_app hashfull) by done.
  rewrite literal_app, (digits_app tbhits) by done.
  rewrite literal_app, (digits_app time) by done.
  rewrite literal_app, (restOfLine_app pv) by done. done.
Qed.

Lemma lastInfoMatch_only input text groups more :
  infoAt input = Some (text, groups, more) -> infoMatches more = [] ->
  lastInfoMatch input = infoMatch text.
Proof.
  intros Hat Hmore. unfold lastInfoMatch.
  by rewrite infoMatches_step, Hat, Hmore.
Qed.

Lemma lastInfoMatch_skip input text groups more :
  infoAt input = Some (text, groups, more) -> infoMatches more <> [] ->
  lastInfoMatch input = lastInfoMatch more.
Proof.
  intros Hat Hmore. unfold lastInfoMatch.
  rewrite infoMatches_step, Hat.
  destruct (infoMatches more) as [|later matches]; [done|].
  by rewrite last_cons_cons.
Qed.

Lemma infoAt_other c input : c <> "i"%char -> infoAt (String c input) = None.
Proof.
  intros Hc. unfold infoAt. simpl. rewrite bool_decide_eq_false_2; [done|]. congruence.
Qed.

Lemma infoMatches_other c input :
  c <> "i"%char -> infoMatches (String c input) = infoMatches input.
Proof. intros Hc. by rewrite infoMatches_step, infoAt_other. Qed.

Lemma isFile_other c : isFile c = true -> c <> "i"%char.
Proof. intros Hc ->. done. Qed.

Lemma isRank_other c : isRank c = true -> c <> "i"%char.
Proof. intros Hc ->. done. Qed.

Lemma infoMatches_bestmove move after :
  coordinates move ->
  infoMatches ("bestmove " +:+ move +:+ after) = infoMatches after.
Proof.
  intros (f1 & r1 & f2 & r2 & -> & Hf1 & Hr1 & Hf2 & Hr2)%coordinates_inv.
  rewrite !append_String. change ("" +:+ ?x) with x.
  rewrite !infoMatches_other; auto using isFile_other, isRank_other; done.
Qed.

Lemma infoMatches_newline after : infoMatches (newline +:+ after) = infoMatches after.
Proof. unfold newline. rewrite append_String. by rewrite infoMatches_other. Qed.

Lemma hear_nothing heard dataString :
  infoMatches dataString = [] -> hear heard dataString = heard.
Proof. intros Hm. unfold hear, lastInfoMatch. by rewrite Hm. Qed.

Lemma infoMatch_here text groups more :
  infoAt text = Some (text, groups, more) -> infoMatch text = Some groups.
Proof.
  intros Hat. destruct text as [|c text]; [by vm_compute in Hat|].
  change (infoMatch (String c text))
    with (match infoAt (String c text) with
          | Some (_, groups, _) => Some groups
          | None => infoMatch text
          end).
  by rewrite Hat.
Qed.

Lemma digitRun_searchPart nodes nps hashfull tbhits time pv rest :
  digitRun (searchPart nodes nps hashfull tbhits time pv +:+ rest)
  = ("", searchPart nodes nps hashfull tbhits time pv +:+ rest).
Proof. unfold searchPart. by rewrite !append_String. Qed.

(** The groups of a whole progress line, and of one that stops after the
    score. *)
Lemma infoAt_line depth seldepth multipv kind score nodes nps hashfull tbhits time pv
    rest :
  number depth -> number seldepth -> number multipv ->
  kind = "cp" \/ kind = "mate" -> signedNumber score ->
  number nodes -> number nps -> number hashfull -> number tbhits -> number time ->
  oneLine pv -> lineRest rest = ("", rest) ->
  infoAt (scorePart depth seldepth multipv kind score
          +:+ searchPart nodes nps hashfull tbhits time pv +:+ rest)
  = Some (scorePart depth seldepth multipv kind score
          +:+ searchPart nodes nps hashfull tbhits time pv,
          {| scoreType := kind; scoreValue := score; pvString := Some pv |}, rest).
Proof.
  intros. rewrite infoAt_score by (done || apply digitRun_searchPart).
  by rewrite infoTail_search.
Qed.

(** X11.  A chunk that ends with a whole progress line: the evaluation and the
    line of moves are those of that line, with the score read as a signed
    decimal and the line of moves trimmed; what was heard before is
    replaced. *)
Theorem progress_line_is_read (heard : Heard)
    (depth seldepth multipv kind score nodes nps hashfull tbhits time pv after : string) :
  number depth -> number seldepth -> number multipv ->
  kind = "cp" \/ kind = "mate" -> signedNumber score ->
  number nodes -> number nps -> number hashfull -> number tbhits -> number time ->
  oneLine pv ->
  lineRest after = ("", after) -> infoMatches after = [] ->
  hear heard (scorePart depth seldepth multipv kind score
              +:+ searchPart nodes nps hashfull tbhits time pv +:+ after)
  = {| heardEvaluation := {| type := kind; value := parseInt score |};
       heardLine := trim pv |}.
Proof.
  intros Hdepth Hseldepth Hmultipv Hkind Hscore Hnodes Hnps Hhashfull Htbhits Htime Hpv
    Hafter Hnone.
  unfold hear.
  rewrite (lastInfoMatch_only _ _ _ _
             (infoAt_line depth seldepth multipv kind score nodes nps hashfull tbhits time
                pv after Hdepth Hseldepth Hmultipv Hkind Hscore Hnodes Hnps Hhashfull
                Htbhits Htime Hpv Hafter) Hnone).
  rewrite (infoMatch_here _ {| scoreType := kind; scoreValue := score;
                               pvString := Some pv |} ""); [done|].
  rewrite <- (append_empty_r (_ +:+ _)) at 1. rewrite append_assoc.
  apply infoAt_line; done.
Qed.

(** X12.  A progress line whose score is not followed by the node count (a bound
    marker, for one) gives the evaluation but not the line of moves: the
    line heard before stays. *)
Theorem score_only_line_keeps_the_variation (heard : Heard)
    (depth seldepth multipv kind score rest : string) :
  number depth -> number seldepth -> number multipv ->
  kind = "cp" \/ kind = "mate" -> signedNumber score ->
  digitRun rest = ("", rest) -> infoTail rest = None -> infoMatches rest = [] ->
  hear heard (scorePart depth seldepth multipv kind score +:+ rest)
  = {| heardEvaluation := {| type := kind; value := parseInt score |};
       heardLine := heardLine heard |}.
Proof.
  intros Hdepth Hseldepth Hmultipv Hkind Hscore Hrest Htail Hnone.
  assert (infoAt (scorePart depth seldepth multipv kind score +:+ rest)
          = Some (scorePart depth seldepth multipv kind score,
                  {| scoreType := kind; scoreValue := score; pvString := None |}, rest))
    as Hat by (by rewrite infoAt_score, Htail).
  unfold hear. rewrite (lastInfoMatch_only _ _ _ _ Hat Hnone).
  rewrite (infoMatch_here _ {| scoreType := kind; scoreValue := score;
                               pvString := None |} ""); [done|].
  rewrite <- (append_empty_r (scorePart _ _ _ _ _)) at 1.
  by rewrite infoAt_score.
Qed.

(** *** Lines of a chunk

    No piece of the progress-line pattern matches a line feed, so a match
    never runs over the end of a line. *)
Local Abbreviation lineEnd more after := (more +:+ newline +:+ after) (only parsing).

Lemma literal_line expected input after :
  lineRest expected = (expected, "") ->
  literal expected (lineEnd input after) = (fun more => lineEnd more after) <$> literal expected input.
Proof.
  revert input. induction expected as [|e expected IH]; intros input He;
    [done|].
  simpl in He. destruct (isLineTerminator e) eqn:Hterm; [done|].
  destruct (lineRest expected) as [line more] eqn:Hl. injection He as -> ->.
  destruct input as [|c input].
  - unfold newline at 1. rewrite append_empty. simpl.
    rewrite bool_decide_eq_false_2; [done|]. by intros ->.
  - rewrite append_String. simpl. case_bool_decide; [|done]. by apply IH.
Qed.

Lemma digitRun_line input after :
  digitRun (lineEnd input after)
  = ((digitRun input).1, lineEnd (digitRun input).2 after).
Proof.
  induction input as [|c input IH]; [done|].
  rewrite append_String. simpl. destruct (isDigit c); [|done].
  rewrite IH. by destruct (digitRun input).
Qed.

Lemma digits_line input after :
  digits (lineEnd input after)
  = (fun found => (found.1, lineEnd found.2 after)) <$> digits input.
Proof.
  unfold digits. rewrite digitRun_line. destruct (digitRun input) as [run more]. simpl.
  by case_bool_decide.
Qed.

Lemma signedDigits_line input after :
  signedDigits (lineEnd input after)
  = (fun found => (found.1, lineEnd found.2 after)) <$> signedDigits input.
Proof.
  destruct input as [|c input].
  - done.
  - change (lineEnd (String c input) after) with (String c (lineEnd input after)).
    destruct (decide (c = "-"%char)) as [->|Hc].
    + simpl. rewrite digits_line. by destruct (digits input) as [[run more]|].
    + transitivity (digits (lineEnd (String c input) after)).
      { change (lineEnd (String c input) after) with (String c (lineEnd input after)).
        destruct c as [[] [] [] [] [] [] [] []]; try done. }
      rewrite digits_line.
      destruct c as [[] [] [] [] [] [] [] []]; try done.
Qed.

Lemma lineRest_line input after :
  lineRest (lineEnd input after)
  = ((lineRest input).1, lineEnd (lineRest input).2 after).
Proof.
  induction input as [|c input IH]; [done|].
  rewrite append_String. simpl. destruct (isLineTerminator c); [done|].
  rewrite IH. by destruct (lineRest input).
Qed.

Lemma restOfLine_line input after :
  restOfLine (lineEnd input after)
  = (fun found => (found.1, lineEnd found.2 after)) <$> restOfLine input.
Proof.
  unfold restOfLine. rewrite lineRest_line. destruct (lineRest input) as [line more].
  simpl. by case_bool_decide.
Qed.

Ltac line_piece :=
  match goal with
  | |- context [literal ?l (lineEnd ?i ?a)] =>
      rewrite (literal_line l i a) by done; destruct (literal l i); cbn [fmap option_fmap option_map fst snd]
  | |- context [digits (lineEnd ?i ?a)] =>
      rewrite (digits_line i a); destruct (digits i) as [[? ?]|]; cbn [fmap option_fmap option_map fst snd]
  | |- context [signedDigits (lineEnd ?i ?a)] =>
      rewrite (signedDigits_line i a); destruct (signedDigits i) as [[? ?]|]; cbn [fmap option_fmap option_map fst snd]
  | |- context [restOfLine (lineEnd ?i ?a)] =>
      rewrite (restOfLine_line i a); destruct (restOfLine i) as [[? ?]|]; cbn [fmap option_fmap option_map fst snd]
  end.

Lemma infoTail_line input after :
  infoTail (lineEnd input after)
  = (fun found => (found.1, lineEnd found.2 after)) <$> infoTail input.
Proof. unfold infoTail. repeat (line_piece; [|done]). done. Qed.

Lemma infoAt_line_end input after :
  infoAt (lineEnd input after)
  = (fun found => (found.1, lineEnd found.2 after)) <$> infoAt input.
Proof.
  unfold infoAt. do 7 (line_piece; [|done]).
  line_piece.
  - do 2 (line_piece; [|done]). rewrite infoTail_line.
    by destruct (infoTail _) as [[[? ?] ?]|].
  - line_piece; [|done]. do 2 (line_piece; [|done]). rewrite infoTail_line.
    by destruct (infoTail _) as [[[? ?] ?]|].
Qed.

Lemma infoMatches_lines before after :
  infoMatches (lineEnd before after) = infoMatches before ++ infoMatches after.
Proof.
  remember (String.length before) as n eqn:Hn.
  revert before Hn. induction (lt_wf n) as [n _ IH]. intros before ->.
  rewrite (infoMatches_step (lineEnd before after)), (infoMatches_step before).
  rewrite infoAt_line_end.
  destruct (infoAt before) as [[[text groups] more]|] eqn:Hat; simpl.
  - f_equal. eapply IH; [|done]. by eapply infoAt_shorter.
  - destruct before as [|c before].
    + rewrite append_empty. apply infoMatches_newline.
    + change (lineEnd (String c before) after) with (String c (lineEnd before after)).
      eapply IH; [|done]. simpl. lia.
Qed.

(** X13.  The lines of one chunk are searched one by one, and only the last
    progress line found is read: once a line has one, whatever the chunk
    holds before that line is ignored, and lines without one change
    nothing. *)
Theorem last_progress_line_of_a_chunk_wins (heard : Heard) (before line : string) :
  (infoMatches line <> [] ->
   hear heard (before +:+ newline +:+ line) = hear heard line)
  /\ (infoMatches line = [] ->
      hear heard (before +:+ newline +:+ line) = hear heard before).
Proof.
  pose proof (infoMatches_lines before line) as Hlines.
  unfold hear, lastInfoMatch. rewrite Hlines. split; intros Hline.
  - destruct (infoMatches line) as [|text matches] using rev_ind; [done|].
    by rewrite (assoc_L (++)), !last_snoc.
  - by rewrite Hline, app_nil_r.
Qed.

(** *** The listener *)

Lemma atLineStart_line {A} (pattern : string -> option A) line rest :
  lineRest line = (line, "") ->
  atLineStart pattern false (line +:+ newline +:+ rest) = atLineStart pattern true rest.
Proof.
  induction line as [|c line IH]; intros Hline.
  - unfold newline. rewrite append_empty, append_String. done.
  - rewrite append_String. simpl in *.
    destruct (isLineTerminator c); [done|].
    destruct (lineRest line) as [line' more']. injection Hline as -> ->.
    by apply IH.
Qed.

Lemma lineRest_append first second :
  lineRest first = (first, "") -> lineRest second = (second, "") ->
  lineRest (first +:+ second) = (first +:+ second, "").
Proof.
  intros Hfirst Hsecond. induction first as [|c first IH]; [done|].
  rewrite append_String. simpl in *.
  destruct (isLineTerminator c); [done|].
  destruct (lineRest first) as [line' more']. injection Hfirst as -> ->.
  by rewrite IH.
Qed.

Lemma lineRest_digitRun run : digitRun run = (run, "") -> lineRest run = (run, "").
Proof.
  induction run as [|c run IH]; [done|]. simpl.
  destruct (isDigit c) eqn:Hc; [|done].
  destruct (digitRun run) as [run' more']. intros [= -> ->].
  rewrite IH by done.
  by replace (isLineTerminator c) with false
    by (by destruct c as [[] [] [] [] [] [] [] []]).
Qed.

Lemma lineRest_number run : number run -> lineRest run = (run, "").
Proof.
  unfold number, digits. intros Hrun. apply lineRest_digitRun.
  destruct (digitRun run) as [run' more']. case_bool_decide; [done|].
  by injection Hrun as -> ->.
Qed.

Lemma lineRest_signedNumber run : signedNumber run -> lineRest run = (run, "").
Proof.
  unfold signedNumber. destruct run as [|c run]; [done|].
  destruct (decide (c = "-"%char)) as [->|Hc].
  - simpl. destruct (digits run) as [[run' more']|] eqn:Hd; [|done].
    intros [= -> ->]. by rewrite (lineRest_number run).
  - intros Hrun. apply lineRest_number. revert Hrun. unfold number.
    destruct c as [[] [] [] [] [] [] [] []]; try done.
Qed.

Lemma lineRest_oneLine line : oneLine line -> lineRest line = (line, "").
Proof.
  unfold oneLine, restOfLine. intros Hline.
  destruct (lineRest line) as [line' more']. case_bool_decide; [done|].
  by injection Hline as -> ->.
Qed.

Lemma lineRest_progress depth seldepth multipv kind score nodes nps hashfull tbhits time
    pv :
  number depth -> number seldepth -> number multipv ->
  kind = "cp" \/ kind = "mate" -> signedNumber score ->
  number nodes -> number nps -> number hashfull -> number tbhits -> number time ->
  oneLine pv ->
  lineRest (scorePart depth seldepth multipv kind score
            +:+ searchPart nodes nps hashfull tbhits time pv)
  = (scorePart depth seldepth multipv kind score
     +:+ searchPart nodes nps hashfull tbhits time pv, "").
Proof.
  intros. unfold scorePart, searchPart.
  repeat (apply lineRest_append);
    auto using lineRest_number, lineRest_signedNumber, lineRest_oneLine.
  match goal with Hkind : _ \/ _ |- _ => destruct Hkind as [-> | ->] end;
    vm_compute; reflexivity.
Qed.

Lemma bestMoveMatch_after_progress depth seldepth multipv kind score line rest :
  lineRest (scorePart depth seldepth multipv kind score +:+ line)
  = (scorePart depth seldepth multipv kind score +:+ line, "") ->
  bestMoveMatch (scorePart depth seldepth multipv kind score +:+ line +:+ newline +:+ rest)
  = bestMoveMatch rest.
Proof.
  intros Hline.
  assert (exists tail, scorePart depth seldepth multipv kind score +:+ line
                       = String "i" tail) as [tail Htail].
  { unfold scorePart. rewrite !append_assoc, append_String. eauto. }
  rewrite <- (append_assoc (scorePart _ _ _ _ _) line).
  rewrite Htail in Hline |- *. rewrite append_String.
  unfold bestMoveMatch.
  change (atLineStart bestMoveAt true (String "i" ?input))
    with (atLineStart bestMoveAt false input).
  apply atLineStart_line.
  change (lineRest (String "i" tail))
    with (let '(line, more) := lineRest tail in (String "i" line, more)) in Hline.
  destruct (lineRest tail) as [line' more']. by injection Hline as -> ->.
Qed.

(** X14.  What one chunk that ends the search resolves with.  With a
    progress line before the best-move line, the evaluation and the line of
    moves are those of the progress line; with the best-move line alone in
    the first chunk heard, they are the initial ones: a score of zero
    centipawns and no line of moves. *)
Theorem final_chunk_resolves_the_search (heard : Heard)
    (depth seldepth multipv kind score nodes nps hashfull tbhits time pv move after : string) :
  number depth -> number seldepth -> number multipv ->
  kind = "cp" \/ kind = "mate" -> signedNumber score ->
  number nodes -> number nps -> number hashfull -> number tbhits -> number time ->
  oneLine pv ->
  coordinates move -> infoMatches after = [] ->
  (exists reply,
     (listen heard [scorePart depth seldepth multipv kind score
                    +:+ searchPart nodes nps hashfull tbhits time pv
                    +:+ newline +:+ "bestmove " +:+ move +:+ after]).2
     = Some {| bestMove := move; ponder := reply;
               evaluation := {| type := kind; value := parseInt score |};
               principalVariation := trim pv |})
  /\ (exists reply,
       (listen nothingHeard ["bestmove " +:+ move +:+ after]).2
       = Some {| bestMove := move; ponder := reply;
                 evaluation := {| type := "cp"; value := 0 |};
                 principalVariation := "" |}).
Proof.
  intros Hdepth Hseldepth Hmultipv Hkind Hscore Hnodes Hnps Hhashfull Htbhits Htime Hpv
    Hmove Hafter.
  split; eexists; simpl.
  - rewrite bestMoveMatch_after_progress by (by apply lineRest_progress).
    rewrite bestMoveMatch_line by done.
    unfold hear.
    erewrite (lastInfoMatch_only _ _ {| scoreType := kind; scoreValue := score;
                                        pvString := Some pv |});
      [ | by apply infoAt_line
        | by rewrite infoMatches_newline, infoMatches_bestmove ].
    rewrite (infoMatch_here _ {| scoreType := kind; scoreValue := score;
                                 pvString := Some pv |} ""); [done|].
    rewrite <- (append_empty_r (_ +:+ _)) at 1. rewrite append_assoc.
    apply infoAt_line; done.
  - rewrite bestMoveMatch_line by done.
    by rewrite hear_nothing by (by rewrite infoMatches_bestmove).
Qed.


Section Searches.
Context (engine : EngineBehaviour).


(** X5.  [getBestMove] looks for the session first and for the difficulty
    second, and writes nothing to any process before both are found. *)
Theorem getBestMove_checks_before_it_writes
    (gameId fen : string) (difficulty : Z) (st : Engines) :
  (stockfishProcesses st !! gameId = None ->
   searchOutput.getBestMove engine gameId fen difficulty st
   = (st, Throw ("Stockfish engine not found for game " +:+ gameId +:+ ".")))
  /\ (is_Some (stockfishProcesses st !! gameId) -> ~ (1 <= difficulty <= 10)%Z ->
      searchOutput.getBestMove engine gameId fen difficulty st
      = (st, Throw ("Invalid difficulty level: " +:+ pretty difficulty
                    +:+ ". Must be between 1 and 10."))).
Proof.
  split.
  - intros Hnone. unfold searchOutput.getBestMove, bind, registryGet. by rewrite Hnone.
  - intros [engineEntry Hentry] Hlevel.
    unfold searchOutput.getBestMove, bind, registryGet, liftResult,
      getStockfishOptionsForDifficulty.
    by rewrite Hentry, level_out_of_range.
Qed.


Lemma fresh_process_is_not_running st : ownsItsProcesses st -> running st !! spawned st = None.
Proof.
  intros [_ Hbound]. destruct (running st !! spawned st) as [gameId|] eqn:Hr; [|done].
  apply Hbound in Hr. lia.
Qed.

(** X15.  [analyzePosition] with its process and listener: the process it
    spawns is dead when it returns, on every path, and is never registered,
    so the registry and the live processes are as before and no game's
    session is touched.  It sends [uci], [isready], the position and
    [go depth 20], in that order, stopping after the first handshake
    command that is left unanswered; a result has no [ponder]; an
    unanswered handshake command surfaces under the transceiver's own
    message, a search without a best-move line as the analysis timeout. *)
Theorem analyzePosition_cleans_up_after_itself (fen : string) (st : Engines) :
  ownsItsProcesses st ->
  let pid := spawned st in
  let '(st', r) := searchOutput.analyzePosition engine fen st in
  stockfishProcesses st' = stockfishProcesses st
  /\ running st' = running st
  /\ spawned st' = S pid
  /\ ownsItsProcesses st'
  /\ exists sent,
       sent `prefix_of` ["uci"; "isready"; "position fen " +:+ fen; "go depth 20"]
       /\ stdin st' = stdin st ++ ((fun line => (pid, line +:+ newline)) <$> sent)
       /\ match r with
          | Ok result =>
              ponder result = None
              /\ sent = ["uci"; "isready"; "position fen " +:+ fen; "go depth 20"]
          | Throw message =>
              (message = "Stockfish command timed out: uci" /\ sent = ["uci"])
              \/ (message = "Stockfish command timed out: isready"
                  /\ sent = ["uci"; "isready"])
              \/ (message = "Stockfish analysis timed out."
                  /\ sent = ["uci"; "isready"; "position fen " +:+ fen; "go depth 20"])
          end.
Proof.
  intros Howns. pose proof (fresh_process_is_not_running st Howns) as Hfresh.
  cbv zeta. unfold searchOutput.analyzePosition.
  unfold bind at 1. unfold spawn at 1.
  unfold bind at 1. unfold tryCatch.
  unfold bind at 1. rewrite sendCommandAndAwaitResponse_run. cbv zeta. cbn [fst snd stdin].
  assert (forall stdin',
            ownsItsProcesses {| stockfishProcesses := stockfishProcesses st;
                                running := running st;
                                spawned := S (spawned st);
                                stdin := stdin' |}) as Hkept.
  { intros stdin'. destruct Howns as [Hagree Hbound]. split; simpl; [done|].
    intros pid gameId Hr. apply Hbound in Hr. lia. }
  destruct (awaitTerminator _ "uciok" _) as [uciok|].
  - unfold bind at 1. rewrite sendCommandAndAwaitResponse_run. cbv zeta. cbn [fst snd stdin].
    destruct (awaitTerminator _ "readyok" _) as [readyok|].
    + unfold bind, ret, write, kill, modify, get, throw. simpl.
      destruct (listen nothingHeard _) as [heard [result|]]; simpl;
        rewrite delete_insert_id by done;
        (split; [done|]); (split; [done|]); (split; [done|]); (split; [apply Hkept|]);
        exists ["uci"; "isready"; "position fen " +:+ fen; "go depth 20"];
        (split; [done|]); (split; [by rewrite <- !(assoc_L (++))|]).
      * done.
      * by right; right.
    + unfold bind, ret, write, kill, modify, get, throw. simpl.
      rewrite delete_insert_id by done.
      (split; [done|]); (split; [done|]); (split; [done|]); (split; [apply Hkept|]).
      exists ["uci"; "isready"]. split; [by eexists|].
      split; [by rewrite <- !(assoc_L (++))|]. by right; left.
  - unfold bind, ret, write, kill, modify, get, throw. simpl.
    rewrite delete_insert_id by done.
    (split; [done|]); (split; [done|]); (split; [done|]); (split; [apply Hkept|]).
    exists ["uci"]. split; [by eexists|]. split; [done|]. by left.
Qed.

End Searches.
(** A best-move line that gives the reply right after the move. *)
Lemma bestmove_with_a_second_move_is_captured_witness :
  bestMoveMatch ("bestmove e2e4 e7e5" +:+ newline) = Some ("e2e4", Some "e7e5").
Proof.
  exact (bestmove_with_a_second_move_is_captured "e2e4" "e7e5" newline eq_refl eq_refl).
Defined.

(** A promotion with the reply the engine expects: the queen is lost, and
    so is the reply. *)
Lemma bestmove_reply_and_promotion_are_dropped_witness :
  bestMoveMatch "bestmove e7e8" = Some ("e7e8", None)
  /\ bestMoveMatch "bestmove e7e8 ponder d8e8" = Some ("e7e8", None)
  /\ bestMoveMatch "bestmove e7e8q ponder d8e8" = Some ("e7e8", None).
Proof.
  destruct (bestmove_reply_and_promotion_are_dropped "e7e8" eq_refl)
    as (Hbare & Hponder & Hpiece).
  split; [exact Hbare|]. split; [exact (Hponder "d8e8")|].
  refine (Hpiece "q"%char " ponder d8e8" _). discriminate.
Defined.

(** The line [bestmove e2e4] cut after its sixth character. *)
Lemma bestmove_cut_in_two_is_missed_witness :
  (listen nothingHeard ["bestmo"; "ve e2e4" +:+ newline]).2 = None
  /\ bestMove <$> (listen nothingHeard ["bestmo" +:+ "ve e2e4" +:+ newline]).2
     = Some "e2e4".
Proof.
  destruct (bestmove_cut_in_two_is_missed "e2e4" "bestmo" "ve e2e4" nothingHeard
              eq_refl eq_refl ltac:(discriminate) ltac:(discriminate))
    as [Hcut Hwhole].
  split; [exact Hcut|]. rewrite Hwhole. reflexivity.
Defined.

(** The progress line of the scenarios, followed by a line feed. *)
Lemma progress_line_is_read_witness :
  hear nothingHeard (Scenarios.progressLine +:+ newline)
  = {| heardEvaluation := {| type := "cp"; value := -35 |};
       heardLine := "e7e5 g1f3 b8c6" |}.
Proof.
  exact (progress_line_is_read nothingHeard "12" "18" "1" "cp" "-35" "20534" "1026700"
           "0" "0" "20" "e7e5 g1f3 b8c6" newline
           eq_refl eq_refl eq_refl (or_introl eq_refl) eq_refl
           eq_refl eq_refl eq_refl eq_refl eq_refl eq_refl eq_refl eq_refl).
Defined.

(** A score given as an upper bound, heard after a line of moves. *)
Lemma score_only_line_keeps_the_variation_witness :
  hear {| heardEvaluation := {| type := "cp"; value := 20 |}; heardLine := "e2e4 e7e5" |}
    "info depth 12 seldepth 18 multipv 1 score cp 35 upperbound nodes 20534 nps 1026700 hashfull 0 tbhits 0 time 20 pv e2e4"
  = {| heardEvaluation := {| type := "cp"; value := 35 |}; heardLine := "e2e4 e7e5" |}.
Proof.
  exact (score_only_line_keeps_the_variation
           {| heardEvaluation := {| type := "cp"; value := 20 |};
              heardLine := "e2e4 e7e5" |}
           "12" "18" "1" "cp" "35"
           " upperbound nodes 20534 nps 1026700 hashfull 0 tbhits 0 time 20 pv e2e4"
           eq_refl eq_refl eq_refl (or_introl eq_refl) eq_refl eq_refl eq_refl eq_refl).
Defined.

(** The last chunk of the scenarios, and its best-move line alone. *)
Lemma final_chunk_resolves_the_search_witness :
  (exists reply,
     (listen nothingHeard [Scenarios.lastChunk]).2
     = Some {| bestMove := "e7e5"; ponder := reply;
               evaluation := {| type := "cp"; value := -35 |};
               principalVariation := "e7e5 g1f3 b8c6" |})
  /\ (exists reply,
       (listen nothingHeard [Scenarios.bestMoveLine +:+ newline]).2
       = Some {| bestMove := "e7e5"; ponder := reply;
                 evaluation := {| type := "cp"; value := 0 |};
                 principalVariation := "" |}).
Proof.
  exact (final_chunk_resolves_the_search nothingHeard "12" "18" "1" "cp" "-35" "20534"
           "1026700" "0" "0" "20" "e7e5 g1f3 b8c6" "e7e5" (" ponder g1f3" +:+ newline)
           eq_refl eq_refl eq_refl (or_introl eq_refl) eq_refl
           eq_refl eq_refl eq_refl eq_refl eq_refl eq_refl eq_refl eq_refl).
Defined.



(** An analysis on a server that runs no engine. *)
Lemma analyzePosition_cleans_up_after_itself_witness :
  let '(st', r) :=
    searchOutput.analyzePosition (Scenarios.searching [Scenarios.lastChunk])
      (chessjs.fen 1) noEngines in
  stockfishProcesses st' = stockfishProcesses noEngines
  /\ running st' = running noEngines
  /\ spawned st' = 1
  /\ ownsItsProcesses st'.
Proof.
  pose proof (analyzePosition_cleans_up_after_itself
                (Scenarios.searching [Scenarios.lastChunk]) (chessjs.fen 1) noEngines
                noEngines_owns) as Hanalysis.
  cbv zeta in Hanalysis.
  destruct (searchOutput.analyzePosition _ _ _) as [st' r].
  destruct Hanalysis as (Hregistry & Hrunning & Hspawned & Howns & _).
  split; [exact Hregistry|]. split; [exact Hrunning|]. split; [exact Hspawned|].
  exact Howns.
Defined.

End outputFacts.

(** * Facts about the course of a game *)
Module playFacts.
Import stockfishService gameService analysisEntries stockfishFacts gameFacts.
Local Open Scope Z_scope.

Section Games.
Context {Chess : Type} `{!chessjs.RulesEngine Chess}.
Context (engine : EngineBehaviour).

(** X16.  A move for a game that is not in [activeGames] is refused as
    "not found or has ended"; one for a game whose stored document is
    missing or is not in play, as "not active or has ended".  Neither
    changes anything. *)
Theorem makeMove_needs_an_active_game s gameId move :
  (activeGames s !! gameId = None ->
     makeMove engine gameId move s = (s, Throw "Game not found or has ended."))
  /\ (forall gameData,
        activeGames s !! gameId = Some gameData ->
        match games s !! gameId with
        | Some gameDoc => Game.status gameDoc <> Game.playing
        | None => True
        end ->
        makeMove engine gameId move s = (s, Throw "Game is not active or has ended.")).
Proof.
  split.
  - intros Hnone. unfold makeMove, bind, activeGet. by rewrite Hnone.
  - intros gameData Hactive Hdoc. unfold makeMove, bind, activeGet, findOne.
    rewrite Hactive. simpl. destruct (games s !! gameId) as [gameDoc|]; [|done].
    by rewrite bool_decide_eq_false_2.
Qed.


Lemma makeMove_accepted s gameId move gameData gameDoc position :
  activeGames s !! gameId = Some gameData ->
  games s !! gameId = Some gameDoc ->
  Game.status gameDoc = Game.playing ->
  chessjs.turn (chessInstance gameData) = humanPlayerColor (players gameData) ->
  chessjs.move (chessInstance gameData) move = Some position ->
  makeMove engine gameId move s
  = (chessMoved gameId position;;
     let gameDoc := recordMove gameDoc move position in
     if chessjs.isGameOver position then gameOver gameId gameDoc position None
     else if bool_decide (Game.white (players gameData) = "Computer")
               && bool_decide (chessjs.turn position = chessjs.w)
             || bool_decide (Game.black (players gameData) = "Computer")
               && bool_decide (chessjs.turn position = chessjs.b)
     then
       let* found := liftEngines
         (getBestMove engine gameId (chessjs.fen position) (difficulty gameData)) in
       let computerMove := bestMove found in
       if bool_decide (computerMove = "") then throw "AI failed to make a move."
       else
       match chessjs.move position computerMove with
       | None => throw "AI generated an invalid move."
       | Some position =>
           chessMoved gameId position;;
           let gameDoc := recordMove gameDoc computerMove position in
           if chessjs.isGameOver position
           then gameOver gameId gameDoc position (Some computerMove)
           else saveAndBroadcast gameId gameDoc (Some computerMove) Game.playing "*"
       end
     else saveAndBroadcast gameId gameDoc None Game.playing "*")%js s.
Proof.
  intros Hactive Hdoc Hplaying Hturn Hmove.
  unfold makeMove. unfold bind at 1, activeGet at 1. rewrite Hactive.
  unfold bind at 1, findOne at 1. rewrite Hdoc, Hplaying. simpl.
  rewrite bool_decide_eq_true_2 by done. simpl. by rewrite Hmove.
Qed.

(** X18.  A human move that ends the game is stored with the status
    [finished] and the result read off the final position, and is answered
    without a computer move; the game leaves [activeGames] and its engine
    session is gone, so every later move for it is refused as "not found or
    has ended". *)
Theorem makeMove_ending_the_game s gameId move gameData gameDoc position :
  activeGames s !! gameId = Some gameData ->
  games s !! gameId = Some gameDoc ->
  Game.gameId gameDoc = gameId ->
  Game.status gameDoc = Game.playing ->
  chessjs.turn (chessInstance gameData) = humanPlayerColor (players gameData) ->
  chessjs.move (chessInstance gameData) move = Some position ->
  chessjs.isGameOver position = true ->
  exists s' closed,
    makeMove engine gameId move s
      = (s', Ok {| game := closed; aiMove := None; moveStatus := Game.finished |})
    /\ closed = recordOutcome (recordMove gameDoc move position) Game.finished
                  (resultOf position)
    /\ games s' !! gameId = Some closed
    /\ activeGames s' !! gameId = None
    /\ stockfishProcesses (engines s') !! gameId = None
    /\ (forall next,
          makeMove engine gameId next s' = (s', Throw "Game not found or has ended.")).
Proof.
  intros Hactive Hdoc Hid Hplaying Hturn Hmove Hover.
  rewrite (makeMove_accepted s gameId move gameData gameDoc position) by done.
  unfold bind at 1, chessMoved, withActiveGames, modify. cbv zeta. rewrite Hover.
  unfold gameOver. cbv zeta. unfold bind at 1, liftEngines. simpl.
  pose proof (terminateEngine_removes gameId (engines s)) as Hremoved.
  rewrite terminateEngine_run in Hremoved |- *. simpl in Hremoved |- *.
  unfold bind at 1, activeDelete, withActiveGames, modify. simpl.
  unfold saveAndBroadcast, bind, save, hasIo, when, emit, modify, ret. simpl. rewrite Hid.
  set (closed := recordOutcome (recordMove gameDoc move position) Game.finished
                   (resultOf position)).
  assert (forall s' : Server,
            activeGames s' !! gameId = None ->
            forall next, makeMove engine gameId next s'
                         = (s', Throw "Game not found or has ended.")) as Hgone.
  { intros s' Hnone next. unfold makeMove, bind, activeGet. by rewrite Hnone. }
  destruct (ioInstance s); simpl; eexists _, closed; (split; [reflexivity|]);
    (split; [done|]); simpl;
    (split; [apply lookup_insert_eq|]);
    (split; [apply lookup_delete_eq|]);
    (split; [exact Hremoved|]);
    apply Hgone; simpl; apply lookup_delete_eq.
Qed.

Lemma computer_is_on_move players before after :
  (Game.white players = "Human" /\ Game.black players = "Computer")
  \/ (Game.white players = "Computer" /\ Game.black players = "Human") ->
  before = humanPlayerColor players ->
  after <> before ->
  bool_decide (Game.white players = "Computer") && bool_decide (after = chessjs.w)
  || bool_decide (Game.black players = "Computer") && bool_decide (after = chessjs.b)
  = true
  /\ after <> humanPlayerColor players.
Proof.
  unfold humanPlayerColor.
  intros [[Hw Hb]|[Hw Hb]] -> Hpassed; rewrite Hw, Hb in *; simpl in *;
    destruct after; try done.
Qed.


(** X20.  A legal human move answered by a legal reply that does not end the
    game: both moves are appended to the stored list in the order played,
    the document holds the position after the reply, the game stays in
    play on that position, and one update with the reply is broadcast when
    a socket server is set. *)
Theorem makeMove_with_reply
    s gameId move gameData gameDoc position engines' found replied :
  activeGames s !! gameId = Some gameData ->
  games s !! gameId = Some gameDoc ->
  Game.gameId gameDoc = gameId ->
  Game.status gameDoc = Game.playing ->
  chessjs.turn (chessInstance gameData) = humanPlayerColor (players gameData) ->
  chessjs.move (chessInstance gameData) move = Some position ->
  chessjs.isGameOver position = false ->
  (Game.white (players gameData) = "Human" /\ Game.black (players gameData) = "Computer")
  \/ (Game.white (players gameData) = "Computer" /\ Game.black (players gameData) = "Human") ->
  chessjs.turn position <> chessjs.turn (chessInstance gameData) ->
  getBestMove engine gameId (chessjs.fen position) (difficulty gameData) (engines s)
    = (engines', Ok found) ->
  bestMove found <> "" ->
  chessjs.move position (bestMove found) = Some replied ->
  chessjs.isGameOver replied = false ->
  exists s' saved,
    makeMove engine gameId move s
      = (s', Ok {| game := saved; aiMove := Some (bestMove found);
                   moveStatus := Game.playing |})
    /\ games s' !! gameId = Some saved
    /\ Game.moves saved = Game.moves gameDoc ++ [move; bestMove found]
    /\ Game.fen saved = chessjs.fen replied
    /\ Game.status saved = Game.playing
    /\ activeGames s' !! gameId
       = Some {| chessInstance := replied; players := players gameData;
                 difficulty := difficulty gameData |}
    /\ engines s' = engines'
    /\ emitted s'
       = emitted s
         ++ (if ioInstance s
             then [(gameId,
                    {| upFen := chessjs.fen replied; upPgn := chessjs.pgn replied;
                       upMoves := Game.moves gameDoc ++ [move; bestMove found];
                       upStatus := Game.playing; upAiMove := Some (bestMove found);
                       upResult := "*" |})]
             else []).
Proof.
  intros Hactive Hdoc Hid Hplaying Hturn Hmove Hover Hplayers Hpassed Hreply Hfound
    Hlegal Hcontinues.
  destruct (computer_is_on_move (players gameData) _ _ Hplayers Hturn Hpassed)
    as [Hcomputer _].
  rewrite (makeMove_accepted s gameId move gameData gameDoc position) by done.
  unfold bind at 1, chessMoved, withActiveGames, modify. cbv zeta.
  rewrite Hover, Hcomputer. unfold bind at 1, liftEngines. simpl. rewrite Hreply.
  rewrite bool_decide_eq_false_2 by done. rewrite Hlegal.
  unfold bind at 1. simpl. rewrite Hcontinues.
  unfold saveAndBroadcast, bind, save, hasIo, when, emit, modify, ret. simpl. rewrite Hid.
  assert (alter (fun gd : GameData =>
                   {| chessInstance := replied; players := players gd;
                      difficulty := difficulty gd |}) gameId
            (alter (fun gd : GameData =>
                      {| chessInstance := position; players := players gd;
                         difficulty := difficulty gd |}) gameId (activeGames s)) !! gameId
          = Some {| chessInstance := replied; players := players gameData;
                    difficulty := difficulty gameData |}) as Halter.
  { by rewrite !lookup_alter_eq, Hactive. }
  destruct (ioInstance s); simpl; eexists _, _; (split; [reflexivity|]); simpl;
    (split; [apply lookup_insert_eq|]); rewrite <- ?app_assoc; simpl;
    rewrite ?app_nil_r; repeat split; done.
Qed.

(** X21.  [analyzeGame] refuses an unknown game as "not found" and a game
    whose status is not [finished] as "not finished", in both cases without
    changing anything. *)
Theorem analyzeGame_needs_a_finished_game s gameId :
  match games s !! gameId with
  | None => analyzeGame engine gameId s = (s, Throw "Game not found.")
  | Some gameDoc =>
      Game.status gameDoc <> Game.finished ->
      analyzeGame engine gameId s
      = (s, Throw "Game is not finished and cannot be analyzed.")
  end.
Proof.
  unfold analyzeGame, bind, findOne.
  destruct (games s !! gameId) as [gameDoc|]; [|done].
  intros Hstatus. by rewrite bool_decide_eq_false_2.
Qed.

Lemma analyzeGame_keeps_an_analysis s gameId gameDoc :
  games s !! gameId = Some gameDoc ->
  Game.status gameDoc = Game.finished ->
  Game.analysis gameDoc <> [] ->
  analyzeGame engine gameId s = (s, Ok (Some gameDoc)).
Proof.
  intros Hdoc Hfinished Hdone. unfold analyzeGame, bind, findOne.
  rewrite Hdoc, Hfinished. simpl.
  destruct (Game.analysis gameDoc); done.
Qed.

(** X22.  Once a game with at least one move has been analysed to the end,
    with one entry for each move, asking again returns the stored document
    as it is and changes nothing. *)
Theorem analyzeGame_twice s gameId gameDoc baseline st :
  games s !! gameId = Some gameDoc ->
  Game.gameId gameDoc = gameId ->
  Game.status gameDoc = Game.finished ->
  Game.analysis gameDoc = [] ->
  analyzePosition engine (chessjs.fen chessjs.newChess) = Ok baseline ->
  replay engine (Game.players gameDoc) (Game.moves gameDoc) 0 (startReplay baseline)
    = Completed st ->
  Game.moves gameDoc <> [] ->
  exists s' analysed,
    analyzeGame engine gameId s = (s', Ok (Some analysed))
    /\ length (Game.analysis analysed) = length (Game.moves gameDoc)
    /\ analyzeGame engine gameId s' = (s', Ok (Some analysed)).
Proof.
  intros Hdoc Hid Hfinished Hfresh Hbase Hreplay Hmoves.
  destruct (analyzeGame_stores engine s gameId gameDoc baseline st) as (s' & Hrun & Hstored);
    try done; [by left|].
  pose proof (replay_length engine _ _ _ _ _ Hreplay) as Hlen. simpl in Hlen.
  exists s', (setAnalysis (analysisResults st) Game.finished gameDoc).
  split; [done|]. split; [done|].
  apply analyzeGame_keeps_an_analysis; [done|done|]. simpl.
  intros Hnil. rewrite Hnil in Hlen. destruct (Game.moves gameDoc); done.
Qed.

(** X23.  When the engine fails during an analysis (at the first position or
    at a later one), the error is thrown on and the document is left with
    the status [analyzing]; from then on [analyzeGame] refuses the game as
    "not finished". *)
Theorem analyzeGame_engine_failure_sticks s gameId gameDoc message :
  games s !! gameId = Some gameDoc ->
  Game.gameId gameDoc = gameId ->
  Game.status gameDoc = Game.finished ->
  Game.analysis gameDoc = [] ->
  analyzePosition engine (chessjs.fen chessjs.newChess) = Throw message
  \/ (exists baseline,
        analyzePosition engine (chessjs.fen chessjs.newChess) = Ok baseline
        /\ replay engine (Game.players gameDoc) (Game.moves gameDoc) 0
             (startReplay baseline) = Rejected message) ->
  exists s',
    analyzeGame engine gameId s = (s', Throw message)
    /\ games s' !! gameId = Some (setStatus gameDoc Game.analyzing)
    /\ analyzeGame engine gameId s'
       = (s', Throw "Game is not finished and cannot be analyzed.").
Proof.
  intros Hdoc Hid Hfinished Hfresh Hfail.
  assert (forall s' : Server,
            games s' !! gameId = Some (setStatus gameDoc Game.analyzing) ->
            analyzeGame engine gameId s'
            = (s', Throw "Game is not finished and cannot be analyzed.")) as Hstuck.
  { intros s' Hs'. unfold analyzeGame, bind, findOne. by rewrite Hs'. }
  unfold analyzeGame at 1, bind, findOne at 1. rewrite Hdoc, Hfinished, Hfresh. simpl.
  unfold liftResult. rewrite Hid.
  destruct Hfail as [-> | (baseline & -> & ->)]; simpl;
    (eexists; split; [reflexivity|]); simpl;
    (split; [apply lookup_insert_eq|]); apply Hstuck; simpl; apply lookup_insert_eq.
Qed.




Lemma replay_follows_moves players played moves st st' :
  replay engine players moves (length played) st = Completed st'
  \/ replay engine players moves (length played) st = Aborted st' ->
  length (analysisResults st) = length played ->
  followsMoves (played ++ moves) (analysisResults st) ->
  followsMoves (played ++ moves) (analysisResults st').
Proof.
  revert played st. induction moves as [|moveSan moves IH]; intros played st; simpl.
  - intros [[= <-]|[=]]. done.
  - unfold analyzePly at 1 2.
    destruct (chessjs.move (chess st) moveSan) as [position|].
    2:{ intros [[=]|[= <-]]. done. }
    destruct (evaluateAfter engine position) as [[evalAfter next]|].
    2:{ intros [[=]|[=]]. }
    intros Hrun Hlen Hst.
    replace (played ++ moveSan :: moves) with ((played ++ [moveSan]) ++ moves) in *
      by (by rewrite <- app_assoc).
    eapply (IH (played ++ [moveSan])).
    + rewrite length_app, Nat.add_1_r. exact Hrun.
    + simpl. rewrite !length_app. simpl. lia.
    + simpl. intros k entry Hk.
      apply lookup_app_Some in Hk as [Hk|[Hge Hk]]; [by apply Hst|].
      apply list_lookup_singleton_Some in Hk as [Hzero <-].
      assert (k = length played) as -> by lia. simpl. split; [|done].
      rewrite <- app_assoc. simpl. by apply list_lookup_middle.
Qed.

(** X25.  The stored analysis follows the recorded moves: its k-th entry is
    for the k-th move and carries the move number k / 2 + 1; when the replay
    ran to the end, the moves of the entries are the recorded list. *)
Theorem analysis_follows_the_move_list s gameId gameDoc baseline st :
  games s !! gameId = Some gameDoc ->
  Game.gameId gameDoc = gameId ->
  Game.status gameDoc = Game.finished ->
  Game.analysis gameDoc = [] ->
  analyzePosition engine (chessjs.fen chessjs.newChess) = Ok baseline ->
  replay engine (Game.players gameDoc) (Game.moves gameDoc) 0 (startReplay baseline)
    = Completed st
  \/ replay engine (Game.players gameDoc) (Game.moves gameDoc) 0 (startReplay baseline)
    = Aborted st ->
  exists s' analysed,
    analyzeGame engine gameId s = (s', Ok (Some analysed))
    /\ (forall k entry,
          Game.analysis analysed !! k = Some entry ->
          Game.moves gameDoc !! k = Some (Game.Entry.move entry)
          /\ Game.Entry.moveNumber entry = (k / 2 + 1)%nat)
    /\ (replay engine (Game.players gameDoc) (Game.moves gameDoc) 0 (startReplay baseline)
          = Completed st ->
        Game.Entry.move <$> Game.analysis analysed = Game.moves gameDoc).
Proof.
  intros Hdoc Hid Hfinished Hfresh Hbase Hreplay.
  destruct (analyzeGame_stores engine s gameId gameDoc baseline st) as (s' & Hrun & _);
    try done.
  exists s', (setAnalysis (analysisResults st) Game.finished gameDoc).
  split; [done|]. simpl.
  assert (followsMoves (Game.moves gameDoc) (analysisResults st)) as Hfollows.
  { apply (replay_follows_moves (Game.players gameDoc) [] (Game.moves gameDoc)
             (startReplay baseline) st); [done|done|].
    intros k entry Hk. done. }
  split; [exact Hfollows|].
  intros Hcompleted. pose proof (replay_length engine _ _ _ _ _ Hcompleted) as Hlen.
  simpl in Hlen. apply list_eq. intros k. rewrite list_lookup_fmap.
  destruct (analysisResults st !! k) as [entry|] eqn:Hentry; simpl.
  - destruct (Hfollows k entry Hentry) as [Hmove _]. by rewrite Hmove.
  - symmetry. apply lookup_ge_None. apply lookup_ge_None in Hentry. lia.
Qed.

End Games.
Import Fixtures Scenarios.


(** The human has Black and mates with the fourth move of the fool's mate. *)
Lemma makeMove_ending_the_game_witness :
  exists s' closed,
    makeMove (replying "e5") "g1" "Qh4#" (inPlay started humanBlack 3 ["f3"; "e5"; "g4"])
      = (s', Ok {| game := closed; aiMove := None; moveStatus := Game.finished |})
    /\ Game.moves closed = ["f3"; "e5"; "g4"; "Qh4#"]
    /\ Game.status closed = Game.finished
    /\ activeGames s' !! "g1" = None
    /\ stockfishProcesses (engines s') !! "g1" = None.
Proof.
  destruct (makeMove_ending_the_game (replying "e5")
              (inPlay started humanBlack 3 ["f3"; "e5"; "g4"]) "g1" "Qh4#"
              {| chessInstance := 3%nat; players := humanBlack; difficulty := 5 |}
              (stored "g1" humanBlack 3 ["f3"; "e5"; "g4"] Game.playing "*") 4%nat)
    as (s' & closed & Hrun & Hclosed & _ & Hactive & Hengine & _); try reflexivity.
  exists s', closed. split; [exact Hrun|]. rewrite Hclosed.
  split; [reflexivity|]. split; [reflexivity|]. split; [exact Hactive|exact Hengine].
Defined.


(** The human has White and plays 1. f3; the engine answers 1... e5. *)
Lemma makeMove_with_reply_witness :
  exists s' saved,
    makeMove (replying "e5") "g1" "f3" (inPlay started humanWhite 0 [])
      = (s', Ok {| game := saved; aiMove := Some "e5"; moveStatus := Game.playing |})
    /\ Game.moves saved = ["f3"; "e5"]
    /\ Game.fen saved = chessjs.fen 2%nat
    /\ activeGames s' !! "g1"
       = Some {| chessInstance := 2%nat; players := humanWhite; difficulty := 5 |}.
Proof.
  destruct (makeMove_with_reply (replying "e5") (inPlay started humanWhite 0 []) "g1" "f3"
              {| chessInstance := 0%nat; players := humanWhite; difficulty := 5 |}
              (stored "g1" humanWhite 0 [] Game.playing "*") 1%nat
              (getBestMove (replying "e5") "g1" (chessjs.fen 1%nat) 5 started).1
              (found "e5" (cp 20)) 2%nat)
    as (s' & saved & Hrun & _ & Hmoves & Hfen & _ & Hactive & _);
    try reflexivity; [by left|discriminate|discriminate|].
  exists s', saved. split; [exact Hrun|]. split; [exact Hmoves|].
  split; [exact Hfen|exact Hactive].
Defined.

(** The finished fool's mate, analysed and asked for again. *)
Lemma analyzeGame_twice_witness :
  exists s' analysed,
    analyzeGame (replying "e2e4") "g1" (serverWith noEngines ∅ [foolsMateGame])
      = (s', Ok (Some analysed))
    /\ length (Game.analysis analysed) = 4%nat
    /\ analyzeGame (replying "e2e4") "g1" s' = (s', Ok (Some analysed)).
Proof.
  exact (analyzeGame_twice (replying "e2e4") (serverWith noEngines ∅ [foolsMateGame])
           "g1" foolsMateGame (found "e2e4" (cp 20))
           (replayed (replying "e2e4") humanBlack FoolsMate.line (found "e2e4" (cp 20)))
           eq_refl eq_refl eq_refl eq_refl eq_refl eq_refl ltac:(discriminate)).
Defined.

(** The same game on a process that never answers [uci]. *)
Lemma analyzeGame_engine_failure_sticks_witness :
  exists s',
    analyzeGame mute "g1" (serverWith noEngines ∅ [foolsMateGame])
      = (s', Throw "Stockfish command timed out: uci")
    /\ games s' !! "g1" = Some (setStatus foolsMateGame Game.analyzing)
    /\ analyzeGame mute "g1" s'
       = (s', Throw "Game is not finished and cannot be analyzed.").
Proof.
  exact (analyzeGame_engine_failure_sticks mute (serverWith noEngines ∅ [foolsMateGame])
           "g1" foolsMateGame "Stockfish command timed out: uci"
           eq_refl eq_refl eq_refl eq_refl (or_introl eq_refl)).
Defined.


(** The analysis of the fool's mate has the four moves, in order. *)
Lemma analysis_follows_the_move_list_witness :
  exists s' analysed,
    analyzeGame (replying "e2e4") "g1" (serverWith noEngines ∅ [foolsMateGame])
      = (s', Ok (Some analysed))
    /\ Game.Entry.move <$> Game.analysis analysed = ["f3"; "e5"; "g4"; "Qh4#"].
Proof.
  destruct (analysis_follows_the_move_list (replying "e2e4")
              (serverWith noEngines ∅ [foolsMateGame]) "g1" foolsMateGame
              (found "e2e4" (cp 20))
              (replayed (replying "e2e4") humanBlack FoolsMate.line (found "e2e4" (cp 20))))
    as (s' & analysed & Hrun & _ & Hmoves); try reflexivity.
  { left. vm_compute. reflexivity. }
  exists s', analysed. split; [exact Hrun|]. apply Hmoves. vm_compute. reflexivity.
Defined.

End playFacts.

(** * Facts about the creation and the end of a game *)
Module lifecycleFacts.
Import stockfishService gameService gameLifecycle stockfishFacts.
Local Open Scope Z_scope.

Section Lifecycle.
Context {Chess : Type} `{!chessjs.RulesEngine Chess}.
Context (engine : EngineBehaviour).
Context (schemaError : Z -> string).
Context (duplicateError : string -> string).
Context (moveError : string -> option string).

Local Abbreviation Server := (Server (Chess:=Chess)).

(** X26.  [terminateGame] never throws.  It removes the engine session and
    the [activeGames] entry of the game and marks its document, if there is
    one, as [terminated] with the result "*"; other games are untouched.
    Afterwards a move for the game is refused as "not found or has ended",
    an analysis of it is refused, and a second [terminateGame] changes
    nothing. *)
Theorem terminateGame_closes_the_game (s : Server) gameId :
  let '(s', r) := terminateGame gameId s in
  r = Ok tt
  /\ stockfishProcesses (engines s') !! gameId = None
  /\ activeGames s' !! gameId = None
  /\ games s' !! gameId
     = (fun gameDoc => recordOutcome gameDoc Game.terminated "*") <$> games s !! gameId
  /\ (forall other, other <> gameId ->
        games s' !! other = games s !! other
        /\ activeGames s' !! other = activeGames s !! other
        /\ stockfishProcesses (engines s') !! other
           = stockfishProcesses (engines s) !! other)
  /\ (forall move,
        makeMove engine gameId move s' = (s', Throw "Game not found or has ended."))
  /\ isThrow (analyzeGame engine gameId s').2 = true
  /\ terminateGame gameId s' = (s', Ok tt).
Proof.
  unfold terminateGame, bind, liftEngines, activeDelete, withActiveGames, updateOne, modify.
  pose proof (terminateEngine_removes gameId (engines s)) as Hremoved.
  rewrite terminateEngine_run in *. simpl in *.
  set (engines' := match stockfishProcesses (engines s) !! gameId with
                   | Some _ => _ | None => _ end) in *.
  split; [done|]. split; [done|]. split; [apply lookup_delete_eq|].
  split; [apply lookup_alter_eq|]. split.
  { intros other Hother. rewrite lookup_alter_ne, lookup_delete_ne by done.
    split; [done|]. split; [done|]. subst engines'.
    destruct (stockfishProcesses (engines s) !! gameId); simpl; [|done].
    by rewrite lookup_delete_ne. }
  split.
  { intros move. unfold makeMove, bind, activeGet. simpl. by rewrite lookup_delete_eq. }
  split.
  { unfold analyzeGame, bind, findOne. simpl. rewrite lookup_alter_eq.
    by destruct (games s !! gameId). }
  rewrite terminateEngine_run, Hremoved. simpl. f_equal. f_equal.
  - by rewrite delete_delete_eq.
  - apply map_eq. intros other. destruct (decide (other = gameId)) as [->|Hother].
    + rewrite !lookup_alter_eq. by destruct (games s !! gameId).
    + by rewrite !lookup_alter_ne.
Qed.

(** X27.  [createGame] stores the document before anything else, so a
    difficulty outside 1..10, or else an identifier already in use, ends
    the call with the error of [save()] and nothing has changed: the game
    is not made active and no process is spawned. *)
Theorem createGame_checks_the_difficulty_first (s : Server) gameId difficulty playerColor :
  (~ (1 <= difficulty <= 10) ->
   createGame engine schemaError duplicateError moveError gameId difficulty playerColor s
   = (s, Throw (schemaError difficulty)))
  /\ (1 <= difficulty <= 10 -> is_Some (games s !! gameId) ->
      createGame engine schemaError duplicateError moveError gameId difficulty playerColor s
      = (s, Throw (duplicateError gameId))).
Proof.
  split.
  - intros Hout. unfold createGame, bind, saveNew. simpl.
    by rewrite bool_decide_eq_false_2.
  - intros Hin [existing Hexisting]. unfold createGame, saveNew.
    unfold bind, findOne. simpl.
    rewrite bool_decide_eq_true_2 by done. simpl. by rewrite Hexisting.
Qed.

(** X28.  When the engine cannot be started, [createGame] throws the error
    of [initializeEngine], but the document stays stored as [playing] and
    the game stays in [activeGames]; it has no engine session, and the
    process that was spawned for it is dead.  Nothing is broadcast. *)
Theorem createGame_failed_engine_leaves_the_game (s : Server) gameId difficulty playerColor :
  1 <= difficulty <= 10 ->
  games s !! gameId = None ->
  handshakeCompletes engine (spawned (engines s))
    (linesTo (spawned (engines s)) (stdin (engines s))) difficulty = false ->
  exists s',
    createGame engine schemaError duplicateError moveError gameId difficulty playerColor s
      = (s', Throw "Failed to initialize Stockfish engine.")
    /\ games s' !! gameId = Some (newGame gameId difficulty playerColor)
    /\ activeGames s' !! gameId
       = Some (seated gameId difficulty playerColor chessjs.newChess)
    /\ stockfishProcesses (engines s') !! gameId = None
    /\ running (engines s') !! spawned (engines s) = None
    /\ emitted s' = emitted s.
Proof.
  intros Hin Hnew Hfail.
  destruct (failed_handshake engine gameId difficulty (engines s) Hfail)
    as (engines' & Hinit & _ & Hkilled & Hdropped).
  unfold createGame, saveNew.
  unfold bind, findOne, save, activeSet, withActiveGames, modify, liftEngines.
  simpl. rewrite bool_decide_eq_true_2 by done. simpl. rewrite Hnew. simpl. rewrite Hinit.
  eexists. split; [reflexivity|]. simpl.
  split; [apply lookup_insert_eq|]. split; [apply lookup_insert_eq|]. done.
Qed.

(** X29.  For a human who does not play Black, a successful [createGame]
    returns the new document with no computer move, [getGameById] finds
    that document, the game is active on the initial position, its engine
    session holds the process spawned for it, and nothing is broadcast. *)
Theorem createGame_for_white (s : Server) gameId difficulty playerColor :
  1 <= difficulty <= 10 ->
  games s !! gameId = None ->
  playerColor <> "black" ->
  handshakeCompletes engine (spawned (engines s))
    (linesTo (spawned (engines s)) (stdin (engines s))) difficulty = true ->
  exists s',
    createGame engine schemaError duplicateError moveError gameId difficulty playerColor s
      = (s', Ok {| Created.game := newGame gameId difficulty playerColor;
                   Created.aiMove := None |})
    /\ getGameById gameId s' = (s', Ok (newGame gameId difficulty playerColor))
    /\ activeGames s' !! gameId
       = Some (seated gameId difficulty playerColor chessjs.newChess)
    /\ stockfishProcesses (engines s') !! gameId
       = Some {| process := spawned (engines s); responseBuffer := "" |}
    /\ running (engines s') !! spawned (engines s) = Some gameId
    /\ emitted s' = emitted s.
Proof.
  intros Hin Hnew Hwhite Hcompletes.
  pose proof (initializeEngine_spec engine gameId difficulty (engines s)) as Hspec.
  cbv zeta in Hspec. rewrite Hcompletes in Hspec.
  unfold createGame, saveNew.
  unfold bind, findOne, save, activeSet, withActiveGames, modify, liftEngines.
  simpl. rewrite bool_decide_eq_true_2 by done. simpl. rewrite Hnew. simpl.
  destruct (initializeEngine engine gameId difficulty (engines s)) as [engines' r].
  destruct Hspec as (_ & -> & Hregistry & Hrunning). simpl.
  unfold seated, newGame. simpl.
  destruct (bool_decide (playerColor = "black")) eqn:Hcolor;
    [by apply bool_decide_eq_true in Hcolor|].
  eexists. split; [reflexivity|]. simpl.
  split. { unfold getGameById, bind, findOne. simpl. by rewrite lookup_insert_eq. }
  split; [apply lookup_insert_eq|].
  rewrite Hregistry, Hrunning, !lookup_insert_eq. done.
Qed.

(** X30.  When the human plays Black, [createGame] asks the engine for the
    first move: a legal one is played on the active position, recorded as
    the only move of the document with the position after it, returned as
    [aiMove], and broadcast once when a socket server is set. *)
Theorem createGame_for_black (s : Server) gameId difficulty found position engines' :
  1 <= difficulty <= 10 ->
  games s !! gameId = None ->
  handshakeCompletes engine (spawned (engines s))
    (linesTo (spawned (engines s)) (stdin (engines s))) difficulty = true ->
  getBestMove engine gameId (chessjs.fen chessjs.newChess) difficulty
    (initializeEngine engine gameId difficulty (engines s)).1 = (engines', Ok found) ->
  bestMove found <> "" ->
  chessjs.move chessjs.newChess (bestMove found) = Some position ->
  let opened := recordMove (newGame gameId difficulty "black") (bestMove found) position in
  exists s',
    createGame engine schemaError duplicateError moveError gameId difficulty "black" s
      = (s', Ok {| Created.game := opened; Created.aiMove := Some (bestMove found) |})
    /\ Game.moves opened = [bestMove found]
    /\ Game.fen opened = chessjs.fen position
    /\ getGameById gameId s' = (s', Ok opened)
    /\ activeGames s' !! gameId = Some (seated gameId difficulty "black" position)
    /\ engines s' = engines'
    /\ emitted s'
       = emitted s
         ++ (if ioInstance s
             then [(gameId,
                    {| upFen := chessjs.fen position; upPgn := chessjs.pgn position;
                       upMoves := [bestMove found]; upStatus := Game.playing;
                       upAiMove := Some (bestMove found); upResult := "*" |})]
             else []).
Proof.
  intros Hin Hnew Hcompletes Hsearch Hfound Hlegal opened.
  pose proof (initializeEngine_spec engine gameId difficulty (engines s)) as Hspec.
  cbv zeta in Hspec. rewrite Hcompletes in Hspec.
  unfold createGame, saveNew.
  unfold bind, findOne, save, activeSet, withActiveGames, modify, liftEngines.
  simpl. rewrite bool_decide_eq_true_2 by done. simpl. rewrite Hnew. simpl.
  destruct (initializeEngine engine gameId difficulty (engines s)) as [engines1 r].
  destruct Hspec as (_ & -> & _ & _). simpl in Hsearch. simpl. rewrite Hsearch.
  rewrite bool_decide_eq_false_2 by done. rewrite Hlegal.
  unfold chessMoved, withActiveGames, modify, hasIo, when, emit, modify, ret. simpl.
  destruct (ioInstance s); simpl; (eexists; split; [reflexivity|]); simpl;
    (split; [done|]); (split; [done|]);
    (split; [unfold getGameById, bind, findOne; simpl; by rewrite lookup_insert_eq|]);
    (split; [by rewrite lookup_alter_eq, lookup_insert_eq|]);
    (split; [done|]); by rewrite ?app_nil_r.
Qed.

End Lifecycle.
Import Fixtures Scenarios.

(** A new game at level 5 on a process that never answers [uci]. *)
Lemma createGame_failed_engine_leaves_the_game_witness :
  exists s',
    createGame mute validationFailed duplicateKey invalidMove "g1" 5 "white" idle
      = (s', Throw "Failed to initialize Stockfish engine.")
    /\ Game.status <$> games s' !! "g1" = Some Game.playing
    /\ is_Some (activeGames s' !! "g1")
    /\ stockfishProcesses (engines s') !! "g1" = None
    /\ running (engines s') !! 0%nat = None.
Proof.
  destruct (createGame_failed_engine_leaves_the_game mute validationFailed duplicateKey
              invalidMove idle "g1" 5 "white")
    as (s' & Hrun & Hstored & Hactive & Hsession & Hprocess & _);
    [lia|reflexivity|reflexivity|].
  exists s'. split; [exact Hrun|]. rewrite Hstored, Hactive.
  split; [reflexivity|]. split; [by eexists|]. split; [exact Hsession|exact Hprocess].
Defined.

(** A new game at level 5 for a human who plays White. *)
Lemma createGame_for_white_witness :
  exists s',
    createGame (replying "f3") validationFailed duplicateKey invalidMove "g1" 5 "white" idle
      = (s', Ok {| Created.game := newGame "g1" 5 "white"; Created.aiMove := None |})
    /\ getGameById "g1" s' = (s', Ok (newGame "g1" 5 "white"))
    /\ activeGames s' !! "g1" = Some (seated "g1" 5 "white" 0%nat)
    /\ stockfishProcesses (engines s') !! "g1"
       = Some {| process := 0%nat; responseBuffer := "" |}
    /\ running (engines s') !! 0%nat = Some "g1"
    /\ emitted s' = [].
Proof.
  refine (createGame_for_white (replying "f3") validationFailed duplicateKey invalidMove
            idle "g1" 5 "white" _ _ _ _).
  - lia.
  - reflexivity.
  - discriminate.
  - reflexivity.
Defined.

(** A new game at level 5 for a human who plays Black: the engine opens
    with 1. f3. *)
Lemma createGame_for_black_witness :
  exists s' opened,
    createGame (replying "f3") validationFailed duplicateKey invalidMove "g1" 5 "black" idle
      = (s', Ok {| Created.game := opened; Created.aiMove := Some "f3" |})
    /\ Game.moves opened = ["f3"]
    /\ Game.fen opened = chessjs.fen 1%nat
    /\ getGameById "g1" s' = (s', Ok opened)
    /\ activeGames s' !! "g1" = Some (seated "g1" 5 "black" 1%nat)
    /\ length (emitted s') = 1%nat.
Proof.
  destruct (createGame_for_black (replying "f3") validationFailed duplicateKey invalidMove
              idle "g1" 5 (found "f3" (cp 20)) 1%nat
              (getBestMove (replying "f3") "g1" (chessjs.fen 0%nat) 5
                 (initializeEngine (replying "f3") "g1" 5 noEngines).1).1)
    as (s' & Hrun & Hmoves & Hfen & Hfound & Hactive & _ & Hemitted);
    [lia|reflexivity|reflexivity|reflexivity|discriminate|reflexivity|].
  eexists s', _. split; [exact Hrun|]. split; [exact Hmoves|]. split; [exact Hfen|].
  split; [exact Hfound|]. split; [exact Hactive|]. by rewrite Hemitted.
Defined.

End lifecycleFacts.
